(** * fsstat.py: parsing a FAT32 filesystem image

    A shallow embedding of [src/fsstat.py] (class [Fat]) and the properties
    of its boot-sector decode, FAT chain traversal, cluster reads,
    directory-entry decode and recursive directory walk.

    Python values are modelled as follows.
    - [int] is [Z] (unbounded).
    - [bytes] is [list byte]; slicing follows Python's clamping rules.
    - [str] is [string].
    - A raised exception is [Raise e]; a loop or recursion that the model
      cannot run to its end within its fuel is [OutOfFuel].
    - The open file is the list of bytes of the image.  Every [read] of the
      source is directly preceded by a [seek] to an absolute offset, so the
      position of the handle never carries information from one call to the
      next; a seek followed by a read is one positioned read [pread].
    - A [read(size)] allocates [size] bytes before it reads.  The reads of
      fixed fields, of one sector and of a content preview ask for little and
      are taken to be granted.  The read of the FAT asks for
      [sectors_per_fat * bytes_per_sector] bytes, up to 2^48: it is a
      [pread_alloc], which raises [MemoryError] above the largest size
      [alloc_limit] that the machine grants. *)

From Stdlib.Strings Require Import String Ascii Byte.
From Stdlib Require Import ZArith List Bool Lia QArith Finite.
Import ListNotations.
Local Open Scope Z_scope.

(** ** Python primitives *)

Module Py.

Definition bytes := list byte.

Inductive exn : Type :=
| AssertionError
| IndexError
| ZeroDivisionError
| OSError
| MemoryError.

Inductive result (A : Type) : Type :=
| Ok (a : A)
| Raise (e : exn)
| OutOfFuel.

Arguments Ok {A} a.
Arguments Raise {A} e.
Arguments OutOfFuel {A}.

Definition bind {A B : Type} (r : result A) (k : A -> result B) : result B :=
  match r with
  | Ok a => k a
  | Raise e => Raise e
  | OutOfFuel => OutOfFuel
  end.

(** [l[start:stop]]: a negative index counts from the end, and both indices
    are clamped to the length. *)
Definition clamp_index (len i : Z) : Z :=
  if i <? 0 then Z.max (i + len) 0 else Z.min i len.

Definition slice {A : Type} (l : list A) (start stop : Z) : list A :=
  let len := Z.of_nat (length l) in
  let a := clamp_index len start in
  let b := clamp_index len stop in
  firstn (Z.to_nat (b - a)) (skipn (Z.to_nat a) l).

(** [l[i]], raising [IndexError] out of range. *)
Definition index {A : Type} (l : list A) (i : Z) : result A :=
  let len := Z.of_nat (length l) in
  let j := if i <? 0 then i + len else i in
  if (j <? 0) || (len <=? j) then Raise IndexError
  else match nth_error l (Z.to_nat j) with
       | Some x => Ok x
       | None => Raise IndexError
       end.

(** [list(range(a, b))]. *)
Definition range (a b : Z) : list Z :=
  map (fun i => a + Z.of_nat i) (seq 0 (Z.to_nat (b - a))).

(** [int.from_bytes(data, "little", signed=False)]. *)
Fixpoint int_from_bytes_little (data : bytes) : Z :=
  match data with
  | [] => 0
  | b :: rest => Z.of_N (Byte.to_N b) + 256 * int_from_bytes_little rest
  end.

(** [f.seek(pos); f.read(size)] on a file opened with ["rb"]: a negative
    position is refused, a read stops at the end of the file, and a negative
    size reads up to the end of the file. *)
Definition pread (f : bytes) (pos size : Z) : result bytes :=
  if pos <? 0 then Raise OSError
  else
    let rest := skipn (Z.to_nat pos) f in
    Ok (if size <? 0 then rest else firstn (Z.to_nat size) rest).

(** [f.seek(pos); f.read(size)] for a size that is read from the image: the
    buffer of [size] bytes is allocated before anything is read, and the
    allocation of more than [alloc_limit] bytes is refused. *)
Definition pread_alloc (alloc_limit : N) (f : bytes) (pos size : Z)
  : result bytes :=
  if pos <? 0 then Raise OSError
  else if Z.of_N alloc_limit <? size then Raise MemoryError
  else pread f pos size.

(** [a / b] on ints, compared with an int: Python's true division rounds the
    exact quotient to the nearest double and compares an int with a float
    exactly.  For the field widths of a boot sector (a 32-bit dividend, an
    8-bit divisor, a 32-bit cluster number) the rounding never crosses an
    integer, so the comparison is the one of the exact quotients. *)
Definition true_div (a b : Z) : result Q :=
  if b =? 0 then Raise ZeroDivisionError
  else Ok (inject_Z a / inject_Z b)%Q.

End Py.

Import Py.

Notation "x <- c1 ;; c2" := (bind c1 (fun x => c2))
  (at level 61, c1 at next level, right associativity).

(** [unpack(data)] with its defaults [signed=False, byteorder="little"]. *)
Definition unpack (data : bytes) : Z := int_from_bytes_little data.

(** ** The [Fat] object *)

(** The keys that [_parse_reserved_sector] stores in [self.boot]. *)
Record Boot : Type := mkBoot {
  bytes_per_sector : Z;
  sectors_per_cluster : Z;
  reserved_sectors : Z;
  number_of_fats : Z;
  total_sectors : Z;
  sectors_per_fat : Z;
  root_dir_first_cluster : Z;
  bytes_per_cluster : Z;
  fat0_sector_start : Z;
  fat0_sector_end : Z;
  data_start : Z;
  data_end : Z
}.

Record Fat : Type := mkFat {
  file : bytes;
  boot : Boot;
  fat : bytes
}.

Definition _parse_reserved_sector (alloc_limit : N) (image : bytes)
  : result Fat :=
  bps <- pread image 11 2 ;;
  spc <- pread image 13 1 ;;
  rs <- pread image 14 2 ;;
  nf <- pread image 16 1 ;;
  ts <- pread image 32 4 ;;
  spf <- pread image 36 4 ;;
  root <- pread image 44 4 ;;
  let bytes_per_sector := unpack bps in
  let sectors_per_cluster := unpack spc in
  let reserved_sectors := unpack rs in
  let number_of_fats := unpack nf in
  let total_sectors := unpack ts in
  let sectors_per_fat := unpack spf in
  let root_dir_first_cluster := unpack root in
  let bytes_per_cluster := bytes_per_sector * sectors_per_cluster in
  let fat0_sector_start := reserved_sectors in
  let fat0_sector_end := fat0_sector_start + sectors_per_fat - 1 in
  let data_start := reserved_sectors + sectors_per_fat * number_of_fats in
  let data_end := total_sectors - 1 in
  fat <- pread_alloc alloc_limit image
           (fat0_sector_start * bytes_per_sector)
           (sectors_per_fat * bytes_per_sector) ;;
  Ok (mkFat image
        (mkBoot bytes_per_sector sectors_per_cluster reserved_sectors
           number_of_fats total_sectors sectors_per_fat root_dir_first_cluster
           bytes_per_cluster fat0_sector_start fat0_sector_end data_start
           data_end)
        fat).

Section Chains.

Variable self : Fat.

Definition _to_sector (cluster : Z) : Z :=
  (cluster - 2) * sectors_per_cluster (boot self) + data_start (boot self).

Definition _end_sector (cluster : Z) : Z :=
  _to_sector cluster + sectors_per_cluster (boot self) - 1.

(** The [while entry_value <= 0x0FFFFFF8] loop of [_get_sectors]. *)
Fixpoint follow_chain (fuel : nat) (entry_value : Z) (list_of_sectors : list Z)
  : result (list Z) :=
  if entry_value <=? 0x0FFFFFF8 then
    match fuel with
    | O => OutOfFuel
    | S fuel' =>
        let byte_offset := entry_value * 4 in
        let list_of_sectors :=
          list_of_sectors
            ++ range (_to_sector entry_value) (_end_sector entry_value + 1) in
        follow_chain fuel'
          (unpack (slice (fat self) byte_offset (byte_offset + 4)))
          list_of_sectors
    end
  else Ok list_of_sectors.

Definition _get_sectors (fuel : nat) (number : Z) : result (list Z) :=
  if (0 <? number * 4 + 4) && (number * 4 + 4 <? sectors_per_fat (boot self))
  then
    let list_of_sectors := [] in
    let byte_offset := number * 4 in
    let entry_value := unpack (slice (fat self) byte_offset (byte_offset + 4)) in
    if negb (entry_value =? 0) then
      let list_of_sectors :=
        list_of_sectors ++ range (_to_sector number) (_end_sector number + 1) in
      follow_chain fuel entry_value list_of_sectors
    else Ok list_of_sectors
  else Raise AssertionError.

(** The [for curr_sector in sector_list] loop of [_retrieve_data]. *)
Fixpoint read_sectors (sector_list : list Z) (data : bytes) : result bytes :=
  match sector_list with
  | [] => Ok data
  | curr_sector :: rest =>
      chunk <- pread (file self) (curr_sector * bytes_per_sector (boot self))
                     (bytes_per_sector (boot self)) ;;
      read_sectors rest (data ++ chunk)
  end.

(** [ignore_unallocated] is a parameter of the source function that its body
    never reads. *)
Definition _retrieve_data (fuel : nat) (cluster : Z) (ignore_unallocated : bool)
  : result bytes :=
  let data := [] in
  sector_list <- _get_sectors fuel cluster ;;
  read_sectors sector_list data.

Definition _get_first_cluster (entry : bytes) : result Z :=
  let high_order := Z.shiftl (int_from_bytes_little (slice entry 20 22)) 16 in
  let low_order := int_from_bytes_little (slice entry 26 28) in
  let content_cluster := high_order + low_order in
  max_cluster <- true_div (total_sectors (boot self))
                          (sectors_per_cluster (boot self)) ;;
  if Qle_bool (inject_Z content_cluster) max_cluster then Ok content_cluster
  else Raise AssertionError.

End Chains.

(** ** [str(bytes)] *)

(** [_get_content] returns [str(data[...])]: the text of a bytes literal,
    [b'...'], as CPython prints it.  The quote is ['] unless the data holds a
    ['] and no double quote; the quote and the backslash are escaped, tab,
    newline and carriage return are written [\t], [\n], [\r], any other byte
    below 0x20 or from 0x7f on is written [\xNN] in lower case. *)
Definition hexdigit (n : N) : ascii :=
  nth (N.to_nat n) (list_ascii_of_string "0123456789abcdef") "0"%char.

Definition bytes_repr_char (quote c : byte) : string :=
  if Byte.eqb c quote || Byte.eqb c x5c then
    String (ascii_of_byte x5c) (String (ascii_of_byte c) EmptyString)
  else if Byte.eqb c x09 then "\t"
  else if Byte.eqb c x0a then "\n"
  else if Byte.eqb c x0d then "\r"
  else if (Byte.to_N c <? 32)%N || (127 <=? Byte.to_N c)%N then
    String (ascii_of_byte x5c)
      (String "x"
         (String (hexdigit (Byte.to_N c / 16))
            (String (hexdigit (Byte.to_N c mod 16)) EmptyString)))
  else String (ascii_of_byte c) EmptyString.

Definition str_of_bytes (data : bytes) : string :=
  let squotes := existsb (Byte.eqb x27) data in
  let dquotes := existsb (Byte.eqb x22) data in
  let quote := if squotes && negb dquotes then x22 else x27 in
  (String "b" (String (ascii_of_byte quote) EmptyString)
     ++ String.concat EmptyString (map (bytes_repr_char quote) data)
     ++ String (ascii_of_byte quote) EmptyString)%string.

(** [hex(0)], the value [parse_dir] compares an entry type with. *)
Definition hex_0 : string := "0x0".

(** ** Directory entries *)

(** The dict that [parse_dir] builds for one entry.  The seven keys that
    every entry has are plain fields; a key that only some entries have is an
    [option], [None] when the key is absent.  The value of ["slack"] is itself
    an [Optional[str]]. *)
Record Entry : Type := mkEntry {
  parent : string;
  dir_cluster : Z;
  entry_num : Z;
  dir_sectors : list Z;
  entry_type : string;
  name : string;
  deleted : bool;
  content_cluster : option Z;
  filesize : option Z;
  content_sectors : option (list Z);
  content : option string;
  slack : option (option string)
}.

Section Walk.

(** [hw4utils.get_entry_type] and [hw4utils.parse_name]: the module is not
    among the sources, its two functions are parameters of the walk. *)
Variable get_entry_type : byte -> string.
Variable parse_name : bytes -> string.

Variable self : Fat.

Definition _get_content (fuel : nat) (cluster filesize : Z)
  : result (string * option string) :=
  let min_size := Z.min 128 filesize in
  data <- _retrieve_data self fuel cluster true ;;
  match data with
  | _ :: _ =>
      let file_content := str_of_bytes (slice data 0 min_size) in
      let slack := str_of_bytes (slice data filesize (filesize + 32)) in
      Ok (file_content, Some slack)
  | [] =>
      chunk <- pread (file self)
                 (_to_sector self cluster * bytes_per_sector (boot self))
                 min_size ;;
      Ok (str_of_bytes chunk, None)
  end.

(** The [while (not is_dir) or (not is_unallocated)] loop of [parse_dir],
    with the local variables of the source as its arguments.  One unit of
    fuel is spent per iteration; the recursive call for a subdirectory and
    the chain traversals of an iteration run on what is left.  The recursion
    limit of the interpreter is not modelled: directories nested deeper than
    it allows raise [RecursionError] there. *)
Fixpoint parse_dir_loop (fuel : nat) (cluster : Z) (parent : string)
  (entry_num : Z) (is_unallocated is_dir : bool) (name : string)
  (directory_entries : list Entry) {struct fuel} : result (list Entry) :=
  if negb is_dir || negb is_unallocated then
    match fuel with
    | O => OutOfFuel
    | S fuel' =>
        let byte_offset := 32 * entry_num in
        data <- _retrieve_data self fuel' cluster true ;;
        let entry_data := slice data byte_offset (byte_offset + 32) in
        dir_sectors <- _get_sectors self fuel' cluster ;;
        tag <- index entry_data 11 ;;
        let entry_type := get_entry_type tag in
        if (entry_type =? hex_0)%string then Ok directory_entries
        else
          let entry_name := parse_name entry_data in
          first <- index entry_data 0 ;;
          let deleted := Byte.eqb first xe5 in
          let entry := mkEntry parent cluster entry_num dir_sectors entry_type
                         entry_name deleted in
          step <-
            (if (entry_type =? "dir")%string
                && negb (entry_name =? ".")%string
                && negb (entry_name =? "..")%string
             then
               content_cluster <- _get_first_cluster self entry_data ;;
               sub <- parse_dir_loop fuel' content_cluster
                        ("/" ++ entry_name)%string 0 false false
                        EmptyString [] ;;
               Ok (true, entry_name, directory_entries ++ sub,
                   entry (Some content_cluster) None None None None)
             else if negb (entry_type =? "lfn")%string
                     && negb (entry_type =? "vol")%string
                     && negb (entry_type =? "dir")%string
             then
               content_cluster <- _get_first_cluster self entry_data ;;
               if negb (content_cluster =? 0) then
                 let filesize := unpack (slice entry_data 28 32) in
                 content <- _get_content fuel' content_cluster filesize ;;
                 content_sectors <- _get_sectors self fuel' content_cluster ;;
                 Ok (is_dir, name, directory_entries,
                     entry (Some content_cluster) (Some filesize)
                       (Some content_sectors) (Some (fst content))
                       (Some (snd content)))
               else
                 Ok (is_dir, name, directory_entries,
                     entry (Some content_cluster) None None None None)
             else
               Ok (is_dir, name, directory_entries,
                   entry None None None None None)) ;;
          let '(is_dir, name, directory_entries, entry) := step in
          parse_dir_loop fuel' cluster parent (entry_num + 1) is_unallocated
            is_dir name (directory_entries ++ [entry])
    end
  else Ok directory_entries.

Definition parse_dir (fuel : nat) (cluster : Z) (parent : string)
  : result (list Entry) :=
  parse_dir_loop fuel cluster parent 0 false false EmptyString [].

(** [info] prints the boot dictionary, then one line per entry of the walk
    from the root directory: what it prints first, and the entries it prints
    after when the walk returns. *)
Definition info (fuel : nat) : Boot * result (list Entry) :=
  (boot self, parse_dir fuel (root_dir_first_cluster (boot self)) EmptyString).

End Walk.

(** [main] on the bytes of the file named on the command line. *)
Definition main (alloc_limit : N) (get_entry_type : byte -> string)
  (parse_name : bytes -> string) (image : bytes) (fuel : nat)
  : result (list Entry) :=
  fs <- _parse_reserved_sector alloc_limit image ;;
  snd (info get_entry_type parse_name fs fuel).

(** ** Sample collaborators and images

    The general theorems below hold for every [get_entry_type] and
    [parse_name].  The concrete scenarios need one instance of each and an
    image to run on. *)

Module Sample.

(** Modelled from the spec: [hw4utils.get_entry_type] is missing from the
    sources.  The spec gives its classes as vol, lfn, dir, other and empty;
    [parse_dir] recognises the empty class as [hex(0)].  The attribute values
    are the ones of a FAT directory entry: 0x08 volume label, 0x0f long file
    name, 0x10 directory. *)
Definition get_entry_type (tag : byte) : string :=
  if Byte.eqb tag x00 then hex_0
  else if Byte.eqb tag x08 then "vol"
  else if Byte.eqb tag x0f then "lfn"
  else if Byte.eqb tag x10 then "dir"
  else "other".

Fixpoint rstrip_spaces (l : bytes) : bytes :=
  match l with
  | [] => []
  | b :: rest =>
      match rstrip_spaces rest with
      | [] => if Byte.eqb b x20 then [] else [b]
      | rest' => b :: rest'
      end
  end.

(** Modelled from the spec: [hw4utils.parse_name] is missing from the
    sources; the spec says only that it decodes the display name of a raw
    32-byte entry.  Here: the 8-byte base name and the 3-byte extension,
    padding removed, joined by a dot when there is an extension. *)
Definition parse_name (entry : bytes) : string :=
  let base := rstrip_spaces (slice entry 0 8) in
  let ext := rstrip_spaces (slice entry 8 11) in
  match ext with
  | [] => string_of_list_byte base
  | _ => (string_of_list_byte base ++ "." ++ string_of_list_byte ext)%string
  end.

(** Little-endian encoding of [v] on [n] bytes. *)
Fixpoint le (n : nat) (v : Z) : bytes :=
  match n with
  | O => []
  | S n' =>
      match Byte.of_N (Z.to_N (v mod 256)) with
      | Some b => b
      | None => x00
      end :: le n' (v / 256)
  end.

Definition zeros (n : nat) : bytes := repeat x00 n.

Definition pad (n : nat) (l : bytes) : bytes := l ++ zeros (n - List.length l).

(** A 512-byte boot sector with the seven fields [_parse_reserved_sector]
    reads. *)
Definition boot_sector (spc rs nf ts spf root : Z) : bytes :=
  pad 512
    (zeros 11 ++ le 2 512 ++ le 1 spc ++ le 2 rs ++ le 1 nf ++ zeros 15
       ++ le 4 ts ++ le 4 spf ++ zeros 4 ++ le 4 root).

(** A 32-byte directory record: 11 bytes of name padded with spaces, the
    type tag at offset 11, the high and low halves of the first cluster at
    offsets 20 and 26, the size at offset 28. *)
Definition dirent (name11 : string) (tag : byte) (cluster size : Z) : bytes :=
  firstn 11 (list_byte_of_string name11 ++ repeat x20 11) ++ [tag] ++ zeros 8
    ++ le 2 (cluster / 65536) ++ zeros 4 ++ le 2 (cluster mod 65536)
    ++ le 4 size.

(** An image with 512-byte sectors, one sector per cluster, 32 reserved
    sectors and one FAT: the boot sector, the FAT entries [fat_entries]
    (cluster 0 first), and the data clusters [clusters] (cluster 2 first). *)
Definition image (ts spf : Z) (fat_entries : list Z) (clusters : list bytes)
  : bytes :=
  pad (32 * 512) (boot_sector 1 32 1 ts spf 2)
    ++ pad (Z.to_nat spf * 512) (flat_map (le 4) fat_entries)
    ++ flat_map (pad 512) clusters.

Definition eoc : Z := 0x0FFFFFFF.

(** Scenario A of the spec, continued one level down: the root directory
    (cluster 2) holds the directory SUB (cluster 3) and the file A.TXT
    (cluster 4, 5 bytes, [hello]); SUB holds [.], [..] and the directory DEEP
    (cluster 6); DEEP holds the empty file B.TXT.  Cluster 5 is unallocated
    and still holds the bytes of a deleted file. *)
Definition scenario_clusters : list bytes :=
  [ dirent "SUB" x10 3 0 ++ dirent "A       TXT" x20 4 5;
    dirent "." x10 3 0 ++ dirent ".." x10 0 0 ++ dirent "DEEP" x10 6 0;
    list_byte_of_string "helloOLD DATA";
    list_byte_of_string "deleted";
    dirent "B       TXT" x20 0 0 ].

Definition scenario_fat : list Z :=
  [0x0FFFFFF8; 0xFFFFFFFF; eoc; eoc; eoc; 0; eoc].

(** Scenario A with the geometry the spec gives it: [sectors_per_fat = 8]. *)
Definition image_A : bytes := image 45 8 scenario_fat scenario_clusters.

(** The same volume with [sectors_per_fat = 64]. *)
Definition image_A64 : bytes := image 101 64 scenario_fat scenario_clusters.

(** A volume whose boot sector says [total_sectors = 0]: the root directory
    holds a volume label and an empty file. *)
Definition image_ts0 : bytes :=
  image 0 64 [0x0FFFFFF8; 0xFFFFFFFF; eoc]
    [ dirent "MYDISK" x08 0 0 ++ dirent "E       TXT" x20 0 0 ].

(** A volume whose boot sector says [sectors_per_fat = 0]. *)
Definition image_spf0 : bytes :=
  image 40 0 [] [ dirent "MYDISK" x08 0 0 ].

(** A volume where the FAT entry of cluster 2 names cluster 20000, whose own
    entry would lie at byte 80000 of a FAT of 32768 bytes. *)
Definition image_stray : bytes :=
  image 101 64 [eoc; 0xFFFFFFFF; 20000] [ dirent "MYDISK" x08 0 0 ].

(** A volume with two sectors per cluster and the chain 3, 5, 4. *)
Definition chain_fs : Fat :=
  mkFat []
    (mkBoot 512 2 32 1 200 64 2 1024 32 95 96 199)
    (flat_map (le 4) [0x0FFFFFF8; 0xFFFFFFFF; eoc; 5; eoc; 4]).

(** A volume with 64 sectors per cluster whose data area starts at sector
    41: cluster 1 would start 23 sectors before the image. *)
Definition wide_fs : Fat :=
  mkFat (zeros 1024)
    (mkBoot 512 64 32 1 1000 9 2 32768 32 40 41 999)
    (flat_map (le 4) [0x0FFFFFF8; 0xFFFFFFFF; eoc]).

(** A volume whose root directory holds the file A.TXT (cluster 3) and the
    deleted directory [?ONE] (first byte 0xE5), whose cluster 4 has been
    freed. *)
Definition image_gone : bytes :=
  image 101 64 [0x0FFFFFF8; 0xFFFFFFFF; eoc; eoc; 0]
    [ dirent "A       TXT" x20 3 5
        ++ dirent (String (ascii_of_byte xe5) "ONE") x10 4 0;
      list_byte_of_string "hello" ].

(** A volume on the layout of [image] whose boot sector gives 0 sectors per
    cluster. *)
Definition image_spc0 : bytes :=
  pad (32 * 512) (boot_sector 0 32 1 100000 64 2)
    ++ pad (64 * 512) (flat_map (le 4) [0x0FFFFFF8; 0xFFFFFFFF; eoc])
    ++ pad 512 (dirent "BIG" x20 65538 0).

(** The volume of Scenario A with 64 sectors per FAT, cut after the sector of
    cluster 3: the chain of cluster 4 is still in the FAT, its sector is
    not in the image. *)
Definition image_cut : bytes := firstn (98 * 512) image_A64.

(** The same volume cut inside its FAT, after 8 of the 64 sectors. *)
Definition image_cut_fat : bytes := firstn (40 * 512) image_A64.

(** The sample machine grants a read of up to 2^31 bytes. *)
Definition alloc_limit : N := 2 ^ 31.

(** The [Fat] object of an image on the sample machine
    ([_parse_reserved_sector] returns on the sample images, see
    [parse_reserved_sector_mount]). *)
Definition mount (img : bytes) : Fat :=
  match _parse_reserved_sector alloc_limit img with
  | Ok fs => fs
  | _ => mkFat img (mkBoot 0 0 0 0 0 0 0 0 0 0 0 0) []
  end.

(** The entries of a walk that returned. *)
Definition entries_of (r : result (list Entry)) : list Entry :=
  match r with
  | Ok out => out
  | _ => []
  end.

Definition names (out : list Entry) : list string := map name out.

Definition parents (out : list Entry) : list string := map parent out.

End Sample.

(** ** Vocabulary of the statements *)

(** The unsigned value that [_parse_reserved_sector] reads at byte [pos] of
    the image on [size] bytes. *)
Definition read_field (image : bytes) (pos size : nat) : Z :=
  unpack (firstn size (skipn pos image)).

(** The size of the FAT read: [sectors_per_fat * bytes_per_sector] as the
    boot sector of the image gives them. *)
Definition fat_size (image : bytes) : Z :=
  read_field image 36 4 * read_field image 11 2.

(** The FAT entry of cluster [n], as [_get_sectors] looks it up. *)
Definition fat_entry (self : Fat) (n : Z) : Z :=
  unpack (slice (fat self) (n * 4) (n * 4 + 4)).

(** The sector range of one cluster, as [_get_sectors] appends it. *)
Definition cluster_sectors (self : Fat) (c : Z) : list Z :=
  range (_to_sector self c) (_end_sector self c + 1).

(** The condition that [_get_sectors] asserts. *)
Definition in_fat_bound (self : Fat) (number : Z) : Prop :=
  0 < number * 4 + 4 < sectors_per_fat (boot self).

(** [c :: rest] is a cluster chain of the FAT: the entry of each cluster but
    the last is the next cluster, a value in (0, 0x0FFFFFF8]; the entry of
    the last is above 0x0FFFFFF8. *)
Fixpoint is_chain (self : Fat) (c : Z) (rest : list Z) : Prop :=
  match rest with
  | [] => 0x0FFFFFF8 < fat_entry self c
  | c' :: rest' =>
      fat_entry self c = c' /\ 0 < c' <= 0x0FFFFFF8 /\ is_chain self c' rest'
  end.

(** An entry that [parse_dir] recurses into. *)
Definition is_recursed (e : Entry) : Prop :=
  entry_type e = "dir"%string /\ name e <> "."%string /\ name e <> ".."%string.

(** The entries that one scan of the directory at [cluster] contributes from
    entry number [n] on: each entry carries the [parent] and [cluster] of the
    scan and the next entry number; an entry that is recursed into stands
    after the result [sub] of the walk of its content cluster. *)
Inductive walked (get_entry_type : byte -> string)
  (parse_name : bytes -> string) (self : Fat) (fuel : nat)
  : Z -> string -> Z -> list Entry -> Prop :=
| walked_end (cluster : Z) (parent_path : string) (n : Z) :
    walked get_entry_type parse_name self fuel cluster parent_path n []
| walked_plain (cluster : Z) (parent_path : string) (n : Z) (e : Entry)
    (tail : list Entry) :
    parent e = parent_path ->
    dir_cluster e = cluster ->
    entry_num e = n ->
    ~ is_recursed e ->
    walked get_entry_type parse_name self fuel cluster parent_path (n + 1)
      tail ->
    walked get_entry_type parse_name self fuel cluster parent_path n
      (e :: tail)
| walked_dir (cluster : Z) (parent_path : string) (n : Z) (e : Entry)
    (cc : Z) (sub tail : list Entry) :
    parent e = parent_path ->
    dir_cluster e = cluster ->
    entry_num e = n ->
    is_recursed e ->
    content_cluster e = Some cc ->
    parse_dir get_entry_type parse_name self fuel cc ("/" ++ name e)%string
    = Ok sub ->
    walked get_entry_type parse_name self fuel cc ("/" ++ name e)%string 0
      sub ->
    walked get_entry_type parse_name self fuel cluster parent_path (n + 1)
      tail ->
    walked get_entry_type parse_name self fuel cluster parent_path n
      (sub ++ e :: tail).

(** [c :: rest] is the sequence of clusters that the loop of [_get_sectors]
    goes through from [c]: every entry up to 0x0FFFFFF8, 0 included, is taken
    as the next cluster; the entry of the last is above 0x0FFFFFF8. *)
Fixpoint follows (self : Fat) (c : Z) (rest : list Z) : Prop :=
  match rest with
  | [] => 0x0FFFFFF8 < fat_entry self c
  | c' :: rest' =>
      fat_entry self c = c' /\ c' <= 0x0FFFFFF8 /\ follows self c' rest'
  end.

(** The bytes that one sector read of [_retrieve_data] returns. *)
Definition sector_bytes (self : Fat) (sector : Z) : bytes :=
  firstn (Z.to_nat (bytes_per_sector (boot self)))
    (skipn (Z.to_nat (sector * bytes_per_sector (boot self))) (file self)).

(** A byte that [str(bytes)] prints as itself: printable ASCII other than the
    single quote and the backslash. *)
Definition plain_byte (b : byte) : bool :=
  (32 <=? Byte.to_N b)%N && (Byte.to_N b <? 127)%N
  && negb (Byte.eqb b x27) && negb (Byte.eqb b x5c).

(** The number of keys of the dict of an entry. *)
Definition present {A : Type} (o : option A) : nat :=
  match o with
  | Some _ => 1
  | None => 0
  end.

Definition key_count (e : Entry) : nat :=
  7 + present (content_cluster e) + present (filesize e)
    + present (content_sectors e) + present (content e) + present (slack e).

(** An entry type for which [parse_dir] decodes content: neither a long file
    name, nor a volume label, nor a directory. *)
Definition is_file_type (t : string) : Prop :=
  t <> "lfn"%string /\ t <> "vol"%string /\ t <> "dir"%string.

(** The optional keys of an entry built from [record], one constructor per
    branch of [parse_dir]. *)
Inductive decoded_keys (self : Fat) (fuel : nat) : bytes -> Entry -> Prop :=
| keys_none (record : bytes) (e : Entry) :
    ~ is_recursed e ->
    ~ is_file_type (entry_type e) ->
    content_cluster e = None -> filesize e = None ->
    content_sectors e = None -> content e = None -> slack e = None ->
    decoded_keys self fuel record e
| keys_dir (record : bytes) (e : Entry) (cc : Z) :
    is_recursed e ->
    _get_first_cluster self record = Ok cc ->
    content_cluster e = Some cc -> filesize e = None ->
    content_sectors e = None -> content e = None -> slack e = None ->
    decoded_keys self fuel record e
| keys_empty_file (record : bytes) (e : Entry) :
    is_file_type (entry_type e) ->
    _get_first_cluster self record = Ok 0 ->
    content_cluster e = Some 0 -> filesize e = None ->
    content_sectors e = None -> content e = None -> slack e = None ->
    decoded_keys self fuel record e
| keys_file (record : bytes) (e : Entry) (cc : Z) (text : string)
    (rest : option string) (csecs : list Z) :
    is_file_type (entry_type e) ->
    _get_first_cluster self record = Ok cc ->
    cc <> 0 ->
    _get_content self fuel cc (unpack (slice record 28 32))
    = Ok (text, rest) ->
    _get_sectors self fuel cc = Ok csecs ->
    content_cluster e = Some cc ->
    filesize e = Some (unpack (slice record 28 32)) ->
    content_sectors e = Some csecs ->
    content e = Some text ->
    slack e = Some rest ->
    decoded_keys self fuel record e.

(** [decoded fuel e]: the entry [e] is what [parse_dir] builds from the
    32-byte record number [entry_num e] of the directory at
    [dir_cluster e]. *)
Definition decoded (get_entry_type : byte -> string)
  (parse_name : bytes -> string) (self : Fat) (fuel : nat) (e : Entry)
  : Prop :=
  exists (data : bytes) (tag first : byte),
    let record :=
      slice data (32 * entry_num e) (32 * entry_num e + 32) in
    0 <= entry_num e
    /\ _retrieve_data self fuel (dir_cluster e) true = Ok data
    /\ _get_sectors self fuel (dir_cluster e) = Ok (dir_sectors e)
    /\ index record 11 = Ok tag
    /\ index record 0 = Ok first
    /\ entry_type e = get_entry_type tag
    /\ get_entry_type tag <> hex_0
    /\ name e = parse_name record
    /\ deleted e = Byte.eqb first xe5
    /\ decoded_keys self fuel record e.

(** [scanned fuel cluster parent_path n l]: [l] is what the scan of the
    directory at [cluster] appends from record [n] on, up to the first record
    whose type tag is the terminator: for each record before it the result of
    the walk of the subdirectory, when the entry is recursed into, and then
    the entry decoded from the record. *)
Inductive scanned (get_entry_type : byte -> string)
  (parse_name : bytes -> string) (self : Fat) (fuel : nat)
  : Z -> string -> Z -> list Entry -> Prop :=
| scanned_end (cluster : Z) (parent_path : string) (n : Z) (data : bytes)
    (tag : byte) :
    _retrieve_data self fuel cluster true = Ok data ->
    index (slice data (32 * n) (32 * n + 32)) 11 = Ok tag ->
    get_entry_type tag = hex_0 ->
    scanned get_entry_type parse_name self fuel cluster parent_path n []
| scanned_plain (cluster : Z) (parent_path : string) (n : Z) (e : Entry)
    (tail : list Entry) :
    decoded get_entry_type parse_name self fuel e ->
    parent e = parent_path ->
    dir_cluster e = cluster ->
    entry_num e = n ->
    ~ is_recursed e ->
    scanned get_entry_type parse_name self fuel cluster parent_path (n + 1)
      tail ->
    scanned get_entry_type parse_name self fuel cluster parent_path n
      (e :: tail)
| scanned_dir (cluster : Z) (parent_path : string) (n : Z) (e : Entry)
    (cc : Z) (sub tail : list Entry) :
    decoded get_entry_type parse_name self fuel e ->
    parent e = parent_path ->
    dir_cluster e = cluster ->
    entry_num e = n ->
    is_recursed e ->
    content_cluster e = Some cc ->
    parse_dir get_entry_type parse_name self fuel cc ("/" ++ name e)%string
    = Ok sub ->
    scanned get_entry_type parse_name self fuel cc ("/" ++ name e)%string 0
      sub ->
    scanned get_entry_type parse_name self fuel cluster parent_path (n + 1)
      tail ->
    scanned get_entry_type parse_name self fuel cluster parent_path n
      (sub ++ e :: tail).

(** The part of the output that one record of a directory contributes: the
    result of the walk of the subdirectory, then the entry. *)
Definition block_entries (b : list Entry * Entry) : list Entry :=
  fst b ++ [snd b].

(** ** Slices, ranges and lists *)

Lemma bind_Ok_inv {A B : Type} (r : result A) (k : A -> result B) (b : B) :
  bind r k = Ok b -> exists a, r = Ok a /\ k a = Ok b.
Proof. destruct r; simpl; intros H; try discriminate. eauto. Qed.

Lemma slice_past_end {A : Type} (l : list A) (a b : Z) :
  Z.of_nat (List.length l) <= a -> slice l a b = [].
Proof.
  intros Ha. unfold slice, clamp_index. cbv zeta.
  destruct (a <? 0) eqn:Hneg; [apply Z.ltb_lt in Hneg; lia|].
  rewrite (Z.min_r a) by lia. rewrite Nat2Z.id, skipn_all. apply firstn_nil.
Qed.

Lemma range_length (a b : Z) : List.length (range a b) = Z.to_nat (b - a).
Proof. unfold range. now rewrite length_map, length_seq. Qed.

Lemma range_In (a b x : Z) : In x (range a b) <-> a <= x < b.
Proof.
  unfold range. rewrite in_map_iff. split.
  - intros (i & <- & Hi). apply in_seq in Hi. lia.
  - intros Hx. exists (Z.to_nat (x - a)). split; [lia|]. apply in_seq. lia.
Qed.

Lemma range_NoDup (a b : Z) : NoDup (range a b).
Proof.
  unfold range. apply Injective_map_NoDup; [|apply seq_NoDup].
  intros i j Hij. lia.
Qed.

Lemma NoDup_flat_map {A B : Type} (f : A -> list B) (l : list A) :
  NoDup l ->
  (forall x, In x l -> NoDup (f x)) ->
  (forall x y b, In x l -> In y l -> x <> y -> In b (f x) -> ~ In b (f y)) ->
  NoDup (flat_map f l).
Proof.
  induction l as [|x l IH]; intros Hnd Hf Hdisj; simpl; [constructor|].
  inversion Hnd as [|? ? Hx Hl]; subst.
  apply NoDup_app.
  - apply Hf. now left.
  - apply IH; auto.
    + intros y Hy. apply Hf. now right.
    + intros y z b Hy Hz. apply Hdisj; now right.
  - intros b Hb Hin. apply in_flat_map in Hin as (y & Hy & Hby).
    apply (Hdisj x y b); auto; [now left | now right | congruence].
Qed.

(** ** Chain resolution *)

Section ChainFacts.

Variable self : Fat.

Lemma follow_chain_never_raises (fuel : nat) :
  forall v acc e, follow_chain self fuel v acc <> Raise e.
Proof.
  induction fuel as [|fuel IH]; intros v acc e; simpl;
    destruct (v <=? 0x0FFFFFF8); try discriminate.
  apply IH.
Qed.

Lemma follow_chain_step (fuel : nat) (v : Z) (acc : list Z) :
  v <= 0x0FFFFFF8 ->
  follow_chain self (S fuel) v acc
  = follow_chain self fuel (fat_entry self v) (acc ++ cluster_sectors self v).
Proof.
  intros Hv. simpl. apply Z.leb_le in Hv. now rewrite Hv.
Qed.

Lemma follow_chain_stop (fuel : nat) (v : Z) (acc : list Z) :
  0x0FFFFFF8 < v -> follow_chain self fuel v acc = Ok acc.
Proof.
  intros Hv. apply Z.leb_gt in Hv. destruct fuel; simpl; now rewrite Hv.
Qed.

Lemma get_sectors_in_bound (fuel : nat) (number : Z) :
  in_fat_bound self number ->
  _get_sectors self fuel number
  = if negb (fat_entry self number =? 0)
    then follow_chain self fuel (fat_entry self number)
           (cluster_sectors self number)
    else Ok [].
Proof.
  intros [H1 H2]. unfold _get_sectors.
  apply Z.ltb_lt in H1, H2. rewrite H1, H2. reflexivity.
Qed.

Lemma get_sectors_out_of_bound (fuel : nat) (number : Z) :
  ~ in_fat_bound self number ->
  _get_sectors self fuel number = Raise AssertionError.
Proof.
  intros Hn. unfold _get_sectors.
  destruct (0 <? number * 4 + 4) eqn:H1; [|reflexivity].
  destruct (number * 4 + 4 <? sectors_per_fat (boot self)) eqn:H2;
    [|reflexivity].
  apply Z.ltb_lt in H1, H2. exfalso. apply Hn. split; assumption.
Qed.

Lemma follow_chain_is_chain (rest : list Z) :
  forall c acc fuel,
    is_chain self c rest ->
    (List.length rest <= fuel)%nat ->
    follow_chain self fuel (fat_entry self c) acc
    = Ok (acc ++ flat_map (cluster_sectors self) rest).
Proof.
  induction rest as [|c' rest IH]; intros c acc fuel Hc Hfuel; simpl in *.
  - rewrite app_nil_r. now apply follow_chain_stop.
  - destruct Hc as (Hnext & Hrange & Hc).
    destruct fuel as [|fuel]; [lia|].
    rewrite Hnext, follow_chain_step by lia.
    rewrite (IH c') by (auto; lia). now rewrite <- app_assoc.
Qed.

Lemma is_chain_entry_nonzero (c : Z) (rest : list Z) :
  is_chain self c rest -> fat_entry self c <> 0.
Proof. destruct rest; simpl; lia. Qed.

Lemma cluster_sectors_length (c : Z) :
  List.length (cluster_sectors self c)
  = Z.to_nat (sectors_per_cluster (boot self)).
Proof.
  unfold cluster_sectors, _end_sector. rewrite range_length. f_equal. lia.
Qed.

Lemma cluster_sectors_In (c x : Z) :
  In x (cluster_sectors self c)
  <-> _to_sector self c <= x < _to_sector self c + sectors_per_cluster (boot self).
Proof. unfold cluster_sectors, _end_sector. rewrite range_In. lia. Qed.

Lemma cluster_sectors_disjoint (c d x : Z) :
  c <> d -> In x (cluster_sectors self c) -> ~ In x (cluster_sectors self d).
Proof.
  rewrite !cluster_sectors_In. unfold _to_sector. intros Hcd Hc Hd. nia.
Qed.

Lemma flat_map_cluster_sectors_length (l : list Z) :
  List.length (flat_map (cluster_sectors self) l)
  = (List.length l * Z.to_nat (sectors_per_cluster (boot self)))%nat.
Proof.
  induction l as [|c l IH]; simpl; [reflexivity|].
  now rewrite length_app, cluster_sectors_length, IH.
Qed.

(** A result does not depend on the fuel that was left over. *)
Lemma follow_chain_mono (fuel : nat) :
  forall fuel' v acc r,
    follow_chain self fuel v acc = Ok r ->
    (fuel <= fuel')%nat ->
    follow_chain self fuel' v acc = Ok r.
Proof.
  induction fuel as [|fuel IH]; intros fuel' v acc r H Hle; simpl in H;
    destruct (v <=? 0x0FFFFFF8) eqn:Hv; try discriminate.
  - injection H as <-. apply follow_chain_stop. now apply Z.leb_gt.
  - destruct fuel' as [|fuel']; [lia|]. simpl. rewrite Hv.
    apply IH; [exact H | lia].
  - injection H as <-. apply follow_chain_stop. now apply Z.leb_gt.
Qed.

Lemma get_sectors_mono (fuel fuel' : nat) (number : Z) (r : list Z) :
  _get_sectors self fuel number = Ok r ->
  (fuel <= fuel')%nat ->
  _get_sectors self fuel' number = Ok r.
Proof.
  unfold _get_sectors. intros H Hle.
  destruct ((0 <? number * 4 + 4)
            && (number * 4 + 4 <? sectors_per_fat (boot self)));
    [|discriminate].
  destruct (negb (unpack (slice (fat self) (number * 4) (number * 4 + 4)) =? 0));
    [|exact H].
  now apply (follow_chain_mono fuel).
Qed.

Lemma retrieve_data_mono (fuel fuel' : nat) (cluster : Z) (flag : bool)
  (data : bytes) :
  _retrieve_data self fuel cluster flag = Ok data ->
  (fuel <= fuel')%nat ->
  _retrieve_data self fuel' cluster flag = Ok data.
Proof.
  unfold _retrieve_data. intros H Hle.
  apply bind_Ok_inv in H as (secs & Hsecs & H).
  now rewrite (get_sectors_mono fuel fuel' cluster secs Hsecs Hle).
Qed.

Lemma get_content_mono (fuel fuel' : nat) (cluster filesize : Z)
  (r : string * option string) :
  _get_content self fuel cluster filesize = Ok r ->
  (fuel <= fuel')%nat ->
  _get_content self fuel' cluster filesize = Ok r.
Proof.
  unfold _get_content. intros H Hle.
  apply bind_Ok_inv in H as (data & Hdata & H).
  now rewrite (retrieve_data_mono fuel fuel' cluster true data Hdata Hle).
Qed.

(** On an unallocated cluster [_retrieve_data] returns no byte, whatever the
    value of [ignore_unallocated]. *)
Lemma retrieve_data_unallocated (fuel : nat) (cluster : Z) (flag : bool) :
  in_fat_bound self cluster ->
  fat_entry self cluster = 0 ->
  _retrieve_data self fuel cluster flag = Ok [].
Proof.
  intros Hb H0. unfold _retrieve_data.
  rewrite get_sectors_in_bound, H0 by assumption. reflexivity.
Qed.

End ChainFacts.

(** C8.  [_get_sectors] raises its assertion exactly on the numbers that
    violate [0 < number * 4 + 4 < sectors_per_fat]: the byte offset of the
    entry is compared with the number of sectors of the FAT as the boot sector
    gives it.  With the geometry of Scenario A this refuses cluster 2, whose
    entry lies well inside the 4096 bytes of the FAT and which is a cluster of
    the volume. *)
Theorem get_sectors_asserts_offset_below_sectors_per_fat :
  (forall (self : Fat) (fuel : nat) (number : Z),
      _get_sectors self fuel number = Raise AssertionError
      <-> ~ (0 < number * 4 + 4 < sectors_per_fat (boot self)))
  /\ (let fs := Sample.mount Sample.image_A in
      2 * 4 + 4 <= Z.of_nat (List.length (fat fs))
      /\ 2 * sectors_per_cluster (boot fs) <= total_sectors (boot fs)
      /\ forall fuel, _get_sectors fs fuel 2 = Raise AssertionError).
Proof.
  split.
  - intros self fuel number. split.
    + intros Hraise Hb. rewrite get_sectors_in_bound in Hraise by exact Hb.
      destruct (negb (fat_entry self number =? 0)); [|discriminate].
      now apply follow_chain_never_raises in Hraise.
    + apply get_sectors_out_of_bound.
  - cbv zeta. split; [|split].
    + vm_compute. discriminate.
    + vm_compute. discriminate.
    + intros fuel. apply get_sectors_out_of_bound.
      unfold in_fat_bound. vm_compute. intros [_ H]. discriminate.
Qed.

Lemma get_sectors_asserts_witness :
  _get_sectors (Sample.mount Sample.image_A) 10 2 = Raise AssertionError.
Proof.
  apply (proj1 get_sectors_asserts_offset_below_sectors_per_fat).
  vm_compute. intros [_ H]. discriminate.
Defined.

(** C6.  A chain of k clusters whose first cluster passes the bound of
    [_get_sectors] resolves, given fuel for its k - 1 links, to the sector
    ranges [sector_of(c) .. sector_of(c) + sectors_per_cluster - 1] of its
    clusters in traversal order: k * sectors_per_cluster sector numbers, with
    no duplicate when no cluster occurs twice. *)
Theorem get_sectors_resolves_chain (self : Fat) (c : Z) (rest : list Z) :
  0 <= sectors_per_cluster (boot self) ->
  in_fat_bound self c ->
  is_chain self c rest ->
  NoDup (c :: rest) ->
  let sectors :=
    flat_map
      (fun c => range (_to_sector self c)
                  (_to_sector self c + sectors_per_cluster (boot self)))
      (c :: rest) in
  (forall fuel, (List.length rest <= fuel)%nat ->
                _get_sectors self fuel c = Ok sectors)
  /\ Z.of_nat (List.length sectors)
     = Z.of_nat (List.length (c :: rest)) * sectors_per_cluster (boot self)
  /\ NoDup sectors.
Proof.
  intros Hspc Hb Hc Hnd sectors.
  assert (Hsec : sectors = flat_map (cluster_sectors self) (c :: rest)).
  { subst sectors. apply flat_map_ext. intros a.
    unfold cluster_sectors, _end_sector. f_equal. lia. }
  rewrite Hsec. split; [|split].
  - intros fuel Hfuel. rewrite get_sectors_in_bound by assumption.
    apply is_chain_entry_nonzero in Hc as Hnz. apply Z.eqb_neq in Hnz.
    rewrite Hnz. simpl negb. cbv iota.
    now rewrite (follow_chain_is_chain self rest c).
  - rewrite flat_map_cluster_sectors_length. lia.
  - apply NoDup_flat_map; auto.
    + intros x _. apply range_NoDup.
    + intros x y b _ _. apply cluster_sectors_disjoint.
Qed.

Lemma get_sectors_resolves_chain_witness :
  _get_sectors Sample.chain_fs 2 3 = Ok [98; 99; 102; 103; 100; 101].
Proof.
  apply (get_sectors_resolves_chain Sample.chain_fs 3 [5; 4]).
  - vm_compute. discriminate.
  - vm_compute. split; reflexivity.
  - vm_compute. repeat split; discriminate.
  - repeat constructor; simpl; intuition discriminate.
  - simpl. lia.
Defined.

(** C10.  Inside the loop of [_get_sectors] no entry value is checked against
    the FAT.  When the entry of the first cluster names a cluster [v] whose
    own 4-byte entry starts at or after the end of the loaded FAT, the slice
    is empty and unpacks to 0, and the loop goes on with cluster 0: after the
    ranges of [number] and [v] it appends the range of cluster 0 and reads the
    entry of cluster 0.  On the volume [image_stray] the chain of cluster 2
    resolves in this way to the sectors of clusters 2, 20000 and 0, although
    20000 violates the bound asserted for the first cluster. *)
Theorem get_sectors_follows_entry_past_fat_end :
  (forall (self : Fat) (fuel : nat) (number v : Z),
      in_fat_bound self number ->
      fat_entry self number = v ->
      0 < v <= 0x0FFFFFF8 ->
      Z.of_nat (List.length (fat self)) <= v * 4 ->
      slice (fat self) (v * 4) (v * 4 + 4) = []
      /\ fat_entry self v = 0
      /\ _get_sectors self (S (S fuel)) number
         = follow_chain self fuel (fat_entry self 0)
             (cluster_sectors self number ++ cluster_sectors self v
                ++ cluster_sectors self 0))
  /\ (let fs := Sample.mount Sample.image_stray in
      in_fat_bound fs 2
      /\ fat_entry fs 2 = 20000
      /\ Z.of_nat (List.length (fat fs)) <= 20000 * 4
      /\ ~ in_fat_bound fs 20000
      /\ _get_sectors fs 2 2
         = Ok (cluster_sectors fs 2 ++ cluster_sectors fs 20000
                 ++ cluster_sectors fs 0)).
Proof.
  split.
  - intros self fuel number v Hb Hv Hrange Hpast.
    assert (Hslice : slice (fat self) (v * 4) (v * 4 + 4) = [])
      by now apply slice_past_end.
    assert (Hzero : fat_entry self v = 0)
      by (unfold fat_entry; now rewrite Hslice).
    repeat split; try assumption.
    rewrite get_sectors_in_bound by assumption. rewrite Hv.
    replace (negb (v =? 0)) with true
      by (symmetry; apply negb_true_iff, Z.eqb_neq; lia).
    rewrite follow_chain_step by lia. rewrite Hzero.
    rewrite follow_chain_step by lia. now rewrite <- app_assoc.
  - cbv zeta. repeat split; try (vm_compute; (reflexivity || discriminate)).
    vm_compute. intros [_ H]. discriminate.
Qed.

Lemma get_sectors_follows_entry_past_fat_end_witness :
  fat_entry (Sample.mount Sample.image_stray) 20000 = 0.
Proof.
  apply (proj1 get_sectors_follows_entry_past_fat_end
           (Sample.mount Sample.image_stray) 0%nat 2 20000).
  - vm_compute. split; reflexivity.
  - vm_compute. reflexivity.
  - lia.
  - vm_compute. discriminate.
Defined.

(** C1.  Cluster 5 of the sample volume is within the bound of
    [_get_sectors] and unallocated.  [_retrieve_data] returns no byte for it
    with [ignore_unallocated=False], and no byte either with
    [ignore_unallocated=True], although a cluster has 512 bytes and the 512
    bytes at its first sector can be read. *)
Theorem retrieve_data_ignores_ignore_unallocated :
  let fs := Sample.mount Sample.image_A64 in
  in_fat_bound fs 5
  /\ fat_entry fs 5 = 0
  /\ _retrieve_data fs 10 5 false = Ok []
  /\ _retrieve_data fs 10 5 true = Ok []
  /\ bytes_per_sector (boot fs) * sectors_per_cluster (boot fs) = 512
  /\ exists chunk,
       pread (file fs) (_to_sector fs 5 * bytes_per_sector (boot fs)) 512
       = Ok chunk
       /\ List.length chunk = 512%nat
       /\ firstn 7 chunk = list_byte_of_string "deleted".
Proof.
  cbv zeta.
  assert (Hb : in_fat_bound (Sample.mount Sample.image_A64) 5)
    by (vm_compute; split; reflexivity).
  assert (H0 : fat_entry (Sample.mount Sample.image_A64) 5 = 0)
    by (vm_compute; reflexivity).
  split; [exact Hb|]. split; [exact H0|].
  split; [now apply retrieve_data_unallocated|].
  split; [now apply retrieve_data_unallocated|].
  split; [vm_compute; reflexivity|].
  eexists. split; [vm_compute; reflexivity|].
  split; vm_compute; reflexivity.
Qed.

(** ** Decoding the first cluster *)

Lemma slice_nonneg {A : Type} (l : list A) (a b : Z) :
  0 <= a <= b ->
  slice l a b = firstn (Z.to_nat (b - a)) (skipn (Z.to_nat a) l).
Proof.
  intros Hab. unfold slice, clamp_index. cbv zeta.
  destruct (a <? 0) eqn:Ha; [apply Z.ltb_lt in Ha; lia|].
  destruct (b <? 0) eqn:Hb; [apply Z.ltb_lt in Hb; lia|].
  destruct (Z_le_gt_dec (Z.of_nat (List.length l)) a) as [Hlen | Hlen].
  - rewrite (Z.min_r a) by lia. rewrite Nat2Z.id.
    rewrite !skipn_all2 by lia. now rewrite !firstn_nil.
  - rewrite (Z.min_l a) by lia.
    destruct (Z_le_gt_dec b (Z.of_nat (List.length l))) as [Hb' | Hb'].
    + now rewrite (Z.min_l b) by lia.
    + rewrite (Z.min_r b) by lia.
      rewrite !firstn_all2; [reflexivity | |]; rewrite length_skipn; lia.
Qed.

Lemma slice_length_le {A : Type} (l : list A) (a b : Z) :
  0 <= a <= b -> (List.length (slice l a b) <= Z.to_nat (b - a))%nat.
Proof. intros Hab. rewrite slice_nonneg by assumption. apply firstn_le_length. Qed.

Lemma int_from_bytes_little_bound (data : bytes) :
  0 <= int_from_bytes_little data < 256 ^ Z.of_nat (List.length data).
Proof.
  induction data as [|b data IH].
  - simpl. lia.
  - cbn [int_from_bytes_little List.length].
    rewrite Nat2Z.inj_succ, Z.pow_succ_r by lia.
    pose proof (Byte.to_N_bounded b). lia.
Qed.

Lemma unpack_nonneg (data : bytes) : 0 <= unpack data.
Proof. apply int_from_bytes_little_bound. Qed.

Lemma int_from_bytes_little_slice_16 (entry : bytes) (a : Z) :
  0 <= a -> 0 <= int_from_bytes_little (slice entry a (a + 2)) < 2 ^ 16.
Proof.
  intros Ha.
  pose proof (int_from_bytes_little_bound (slice entry a (a + 2))) as Hb.
  pose proof (slice_length_le entry a (a + 2) ltac:(lia)) as Hl.
  replace (a + 2 - a) with 2 in Hl by lia.
  assert (256 ^ Z.of_nat (List.length (slice entry a (a + 2))) <= 256 ^ 2)
    by (apply Z.pow_le_mono_r; lia).
  change (256 ^ 2) with (2 ^ 16) in *. lia.
Qed.




(** ** Content and slack *)

(** C5 as the spec states it fails on Scenario A: with [sectors_per_fat = 8]
    the chain of cluster 4 cannot be resolved, [_get_content] raises the
    assertion of [_get_sectors]; and on the same volume with
    [sectors_per_fat = 64] the content of A.TXT is the text of a bytes
    literal, not the five characters [hello]. *)
Lemma get_content_scenario_A_counterexample :
  _get_content (Sample.mount Sample.image_A) 10 4 5 = Raise AssertionError
  /\ (exists content slack,
         _get_content (Sample.mount Sample.image_A64) 10 4 5
         = Ok (content, slack)
         /\ content = "b'hello'"%string
         /\ content <> "hello"%string).
Proof.
  split; [vm_compute; reflexivity|].
  eexists. eexists. split; [vm_compute; reflexivity|].
  split; [reflexivity | discriminate].
Qed.

(** C5, amended.  [_get_content] tests the buffer that [_retrieve_data]
    returns, not the chain.  When the buffer [data] is not empty, the content
    is [str] of the first [min(128, filesize)] bytes of [data] and the slack
    is [str] of the up to 32 bytes of [data] from offset [filesize] on.  When
    it is empty, also for a chain that is not, the content is [str] of a
    direct read at the first sector of the cluster and there is no slack.
    On Scenario A with [sectors_per_fat = 64], A.TXT (cluster 4, 5 bytes)
    has content [b'hello']; on the same image cut before the sector of
    cluster 4 the chain is [98], the buffer is empty and the content is
    [b'']. *)
Theorem get_content_is_str_of_prefix_and_slack :
  (forall (self : Fat) (fuel : nat) (cluster filesize : Z) (data : bytes),
      0 <= filesize ->
      _retrieve_data self fuel cluster true = Ok data ->
      (data <> [] ->
       _get_content self fuel cluster filesize
       = Ok (str_of_bytes (firstn (Z.to_nat (Z.min 128 filesize)) data),
             Some (str_of_bytes
                     (firstn 32 (skipn (Z.to_nat filesize) data)))))
      /\ (data = [] ->
          _get_content self fuel cluster filesize
          = (chunk <- pread (file self)
                        (_to_sector self cluster
                         * bytes_per_sector (boot self))
                        (Z.min 128 filesize) ;;
             Ok (str_of_bytes chunk, None))))
  /\ (exists slack,
         _get_content (Sample.mount Sample.image_A64) 10 4 5
         = Ok ("b'hello'"%string, Some slack))
  /\ (_get_sectors (Sample.mount Sample.image_cut) 10 4 = Ok [98]
      /\ _retrieve_data (Sample.mount Sample.image_cut) 10 4 true = Ok []
      /\ _get_content (Sample.mount Sample.image_cut) 10 4 5
         = Ok ("b''"%string, None)).
Proof.
  split; [|split].
  - intros self fuel cluster filesize data Hsize Hdata.
    unfold _get_content. rewrite Hdata. cbn [bind]. split.
    + intros Hne. destruct data as [|b data]; [congruence|].
      rewrite !slice_nonneg by lia.
      replace (Z.to_nat (filesize + 32 - filesize)) with 32%nat by lia.
      rewrite Z.sub_0_r. reflexivity.
    + intros ->. reflexivity.
  - eexists. vm_compute. reflexivity.
  - repeat split; vm_compute; reflexivity.
Qed.

Lemma get_content_is_str_witness :
  _get_content (Sample.mount Sample.image_A64) 10 4 5
  = Ok ("b'hello'"%string,
        Some (str_of_bytes
                (list_byte_of_string "OLD DATA" ++ Sample.zeros 24))).
Proof.
  destruct (proj1 get_content_is_str_of_prefix_and_slack
              (Sample.mount Sample.image_A64) 10%nat 4 5
              (Sample.pad 512 (list_byte_of_string "helloOLD DATA")))
    as [H _].
  - lia.
  - vm_compute. reflexivity.
  - rewrite H.
    + vm_compute. reflexivity.
    + vm_compute. discriminate.
Defined.

Section WalkFacts.

Variable get_entry_type : byte -> string.
Variable parse_name : bytes -> string.
Variable self : Fat.

Local Abbreviation loop := (parse_dir_loop get_entry_type parse_name self).
Local Abbreviation walk := (parse_dir get_entry_type parse_name self).
Local Abbreviation walked' := (walked get_entry_type parse_name self).

Lemma loop_out_of_fuel (c : Z) (p : string) (n : Z) (idir : bool)
  (nm : string) (acc : list Entry) :
  loop 0 c p n false idir nm acc = OutOfFuel.
Proof. cbn [parse_dir_loop]. change (negb false) with true. now rewrite orb_true_r. Qed.

Lemma loop_mono (fuel : nat) :
  forall fuel' c p n ia idir nm acc out,
    loop fuel c p n ia idir nm acc = Ok out ->
    (fuel <= fuel')%nat ->
    loop fuel' c p n ia idir nm acc = Ok out.
Proof.
  induction fuel as [|fuel IH]; intros fuel' c p n ia idir nm acc out H Hle.
  - cbn [parse_dir_loop] in H.
    destruct (negb idir || negb ia) eqn:Hcond; [discriminate|].
    destruct fuel'; cbn [parse_dir_loop]; now rewrite Hcond.
  - destruct fuel' as [|fuel']; [lia|].
    assert (Hle' : (fuel <= fuel')%nat) by lia.
    cbn [parse_dir_loop] in H |- *.
    destruct (negb idir || negb ia); [|exact H].
    apply bind_Ok_inv in H as (data & Hdata & H).
    rewrite (retrieve_data_mono self _ _ _ _ _ Hdata Hle'). cbn [bind].
    apply bind_Ok_inv in H as (secs & Hsecs & H).
    rewrite (get_sectors_mono self _ _ _ _ Hsecs Hle'). cbn [bind].
    apply bind_Ok_inv in H as (tag & -> & H). cbn [bind].
    destruct (get_entry_type tag =? hex_0)%string; [exact H|].
    apply bind_Ok_inv in H as (first & -> & H). cbn [bind].
    apply bind_Ok_inv in H as (step & Hstep & H).
    match goal with
    | |- bind ?r _ = _ => assert (Hstep' : r = Ok step)
    end.
    { set (entry_data := slice data (32 * n) (32 * n + 32)) in *.
      destruct ((get_entry_type tag =? "dir")%string
                && negb (parse_name entry_data =? ".")%string
                && negb (parse_name entry_data =? "..")%string).
      - apply bind_Ok_inv in Hstep as (cc & -> & Hstep). cbn [bind].
        apply bind_Ok_inv in Hstep as (sub & Hsub & Hstep).
        now rewrite (IH _ _ _ _ _ _ _ _ _ Hsub Hle').
      - destruct (negb (get_entry_type tag =? "lfn")%string
                  && negb (get_entry_type tag =? "vol")%string
                  && negb (get_entry_type tag =? "dir")%string);
          [|exact Hstep].
        apply bind_Ok_inv in Hstep as (cc & -> & Hstep). cbn [bind].
        destruct (negb (cc =? 0)); [|exact Hstep].
        apply bind_Ok_inv in Hstep as (content & Hcontent & Hstep).
        rewrite (get_content_mono self _ _ _ _ _ Hcontent Hle'). cbn [bind].
        apply bind_Ok_inv in Hstep as (csecs & Hcsecs & Hstep).
        now rewrite (get_sectors_mono self _ _ _ _ Hcsecs Hle'). }
    rewrite Hstep'. cbn [bind]. destruct step as [[[idir' nm'] des] e].
    now apply (IH fuel').
Qed.

Lemma walk_mono (fuel fuel' : nat) (c : Z) (p : string) (out : list Entry) :
  walk fuel c p = Ok out -> (fuel <= fuel')%nat -> walk fuel' c p = Ok out.
Proof. apply loop_mono. Qed.

(** One iteration of the scan that does not raise: it reads the record at
    [n], and either finds the terminator and returns, or appends the result
    of the recursion, if any, and the entry, and goes on at [n + 1]. *)
Lemma parse_dir_loop_step_inv (fuel : nat) (c : Z) (p : string) (n : Z)
  (idir : bool) (nm : string) (acc out : list Entry) :
  loop (S fuel) c p n false idir nm acc = Ok out ->
  exists data secs tag,
    _retrieve_data self fuel c true = Ok data /\
    _get_sectors self fuel c = Ok secs /\
    index (slice data (32 * n) (32 * n + 32)) 11 = Ok tag /\
    ((get_entry_type tag = hex_0 /\ out = acc) \/
     (get_entry_type tag <> hex_0 /\
      exists idir' nm' sub e,
        parent e = p /\ dir_cluster e = c /\ entry_num e = n /\
        ((is_recursed e /\
          exists cc, content_cluster e = Some cc /\
                     walk fuel cc ("/" ++ name e)%string = Ok sub)
         \/ (~ is_recursed e /\ sub = [])) /\
        loop fuel c p (n + 1) false idir' nm' ((acc ++ sub) ++ [e]) = Ok out)).
Proof.
  intros H. cbn [parse_dir_loop] in H.
  change (negb false) with true in H. rewrite orb_true_r in H.
  apply bind_Ok_inv in H as (data & Hdata & H).
  apply bind_Ok_inv in H as (secs & Hsecs & H).
  apply bind_Ok_inv in H as (tag & Htag & H).
  exists data, secs, tag. repeat (split; [assumption|]).
  destruct (get_entry_type tag =? hex_0)%string eqn:Hterm.
  - left. apply String.eqb_eq in Hterm. split; congruence.
  - right. apply String.eqb_neq in Hterm. split; [assumption|].
    apply bind_Ok_inv in H as (first & Hfirst & H).
    apply bind_Ok_inv in H as ([[[idir' nm'] des] e] & Hstep & H).
    set (entry_data := slice data (32 * n) (32 * n + 32)) in *.
    destruct ((get_entry_type tag =? "dir")%string
              && negb (parse_name entry_data =? ".")%string
              && negb (parse_name entry_data =? "..")%string) eqn:Hrec.
    + apply bind_Ok_inv in Hstep as (cc & Hcc & Hstep).
      apply bind_Ok_inv in Hstep as (sub & Hsub & Hstep).
      injection Hstep as <- <- <- <-.
      apply andb_true_iff in Hrec as [Hrec Hdd].
      apply andb_true_iff in Hrec as [Hty Hd].
      apply String.eqb_eq in Hty.
      apply negb_true_iff, String.eqb_neq in Hd, Hdd.
      match type of H with
      | parse_dir_loop _ _ _ _ _ _ _ _ ?b ?s (_ ++ [?e]) = _ =>
          exists b, s, sub, e
      end.
      repeat (split; [reflexivity|]).
      split; [|exact H]. left. split; [now split|].
      exists cc. split; [reflexivity | exact Hsub].
    + assert (Hplain :
                des = acc /\ parent e = p /\ dir_cluster e = c
                /\ entry_num e = n /\ entry_type e = get_entry_type tag
                /\ name e = parse_name entry_data).
      { destruct (negb (get_entry_type tag =? "lfn")%string
                  && negb (get_entry_type tag =? "vol")%string
                  && negb (get_entry_type tag =? "dir")%string).
        - apply bind_Ok_inv in Hstep as (cc & Hcc & Hstep).
          destruct (negb (cc =? 0)).
          + apply bind_Ok_inv in Hstep as (content & Hcontent & Hstep).
            apply bind_Ok_inv in Hstep as (csecs & Hcsecs & Hstep).
            injection Hstep as <- <- <- <-. repeat split.
          + injection Hstep as <- <- <- <-. repeat split.
        - injection Hstep as <- <- <- <-. repeat split. }
      destruct Hplain as (-> & Hp & Hc & Hn & Hty & Hname).
      exists idir', nm', [], e. repeat (split; [assumption|]).
      split; [|now rewrite app_nil_r]. right. split; [|reflexivity].
      intros (Hdir & Hd & Hdd). rewrite Hty in Hdir. rewrite Hname in Hd, Hdd.
      apply String.eqb_eq in Hdir. apply String.eqb_neq in Hd, Hdd.
      rewrite Hdir, Hd, Hdd in Hrec. discriminate.
Qed.

Lemma walked_mono (fuel fuel' : nat) (c : Z) (p : string) (n : Z)
  (l : list Entry) :
  walked' fuel c p n l -> (fuel <= fuel')%nat -> walked' fuel' c p n l.
Proof.
  intros H Hle.
  induction H as [c p n
                 | c p n e tail Hp Hc Hn Hplain Htail IHtail
                 | c p n e cc sub tail Hp Hc Hn Hrec Hcc Hrun
                     Hsub IHsub Htail IHtail].
  - constructor.
  - now apply walked_plain.
  - eapply walked_dir; eauto. now apply (walk_mono fuel).
Qed.

(** The entries that a scan appends form a [walked] list. *)
Lemma loop_walked (fuel : nat) :
  forall c p n idir nm acc out,
    loop fuel c p n false idir nm acc = Ok out ->
    exists tail, out = acc ++ tail /\ walked' fuel c p n tail.
Proof.
  induction fuel as [|fuel IH]; intros c p n idir nm acc out H.
  - rewrite loop_out_of_fuel in H. discriminate.
  - apply parse_dir_loop_step_inv in H
      as (data & secs & tag & _ & _ & _ & [[_ ->] | [_ H]]).
    + exists []. split; [now rewrite app_nil_r | constructor].
    + destruct H as (idir' & nm' & sub & e & Hp & Hc & Hn & Hsub & H).
      apply IH in H as (tail & -> & Htail).
      apply (walked_mono fuel (S fuel)) in Htail; [|lia].
      exists (sub ++ e :: tail). split.
      { rewrite <- !app_assoc. reflexivity. }
      destruct Hsub as [[Hrec (cc & Hcc & Hsub)] | [Hplain ->]].
      * apply IH in Hsub as Hw. destruct Hw as (sub' & Heq & Hw).
        simpl in Heq. subst sub'.
        apply (walked_mono fuel (S fuel)) in Hw; [|lia].
        apply (walk_mono fuel (S fuel)) in Hsub; [|lia].
        eapply walked_dir; eauto.
      * simpl. now apply walked_plain.
Qed.

Lemma walk_walked (fuel : nat) (c : Z) (p : string) (out : list Entry) :
  walk fuel c p = Ok out -> walked' fuel c p 0 out.
Proof.
  intros H. apply loop_walked in H as (tail & -> & H). exact H.
Qed.

Lemma walked_parent (fuel : nat) (c : Z) (p : string) (n : Z)
  (l : list Entry) :
  walked' fuel c p n l ->
  forall e, In e l ->
    (parent e = p /\ dir_cluster e = c)
    \/ exists d, In d l /\ is_recursed d
                 /\ content_cluster d = Some (dir_cluster e)
                 /\ parent e = ("/" ++ name d)%string.
Proof.
  induction 1 as [c p n
                 | c p n e tail Hp Hc Hn Hplain Htail IHtail
                 | c p n e cc sub tail Hp Hc Hn Hrec Hcc Hrun
                     Hsub IHsub Htail IHtail];
    intros x Hin.
  - contradiction.
  - destruct Hin as [<- | Hin]; [now left|].
    destruct (IHtail x Hin) as [Hown | (d & Hd & Hrest)]; [now left|].
    right. exists d. split; [now right | exact Hrest].
  - apply in_app_or in Hin as [Hin | [<- | Hin]].
    + right. destruct (IHsub x Hin) as [[Hxp Hxc] | (d & Hd & Hrest)].
      * exists e. split; [apply in_or_app; right; now left|].
        split; [exact Hrec|]. split; congruence.
      * exists d. split; [apply in_or_app; now left | exact Hrest].
    + now left.
    + destruct (IHtail x Hin) as [Hown | (d & Hd & Hrest)]; [now left|].
      right. exists d. split; [apply in_or_app; right; now right | exact Hrest].
Qed.

Lemma walked_order (fuel : nat) (c : Z) (p : string) (n : Z)
  (l : list Entry) :
  walked' fuel c p n l ->
  forall pre e post,
    l = pre ++ e :: post ->
    is_recursed e ->
    exists cc sub pre',
      content_cluster e = Some cc
      /\ walk fuel cc ("/" ++ name e)%string = Ok sub
      /\ pre = pre' ++ sub.
Proof.
  induction 1 as [c p n
                 | c p n e tail Hp Hc Hn Hplain Htail IHtail
                 | c p n e cc sub tail Hp Hc Hn Hrec Hcc Hrun
                     Hsub IHsub Htail IHtail];
    intros pre x post Heq Hx.
  - now destruct pre.
  - destruct pre as [|y pre]; simpl in Heq; injection Heq as <- Heq.
    + contradiction.
    + destruct (IHtail _ _ _ Heq Hx) as (cc & sub & pre' & H1 & H2 & ->).
      exists cc, sub, (e :: pre'). auto.
  - assert (Hhere : forall pre0, pre0 = sub ->
              exists cc0 sub0 pre',
                content_cluster e = Some cc0
                /\ walk fuel cc0 ("/" ++ name e)%string = Ok sub0
                /\ pre0 = pre' ++ sub0).
    { intros pre0 ->. exists cc, sub, []. auto. }
    apply app_eq_app in Heq as (l & [[-> Heq] | [-> Heq]]).
    + destruct l as [|y l]; simpl in Heq; injection Heq as -> Heq.
      * apply Hhere. now rewrite app_nil_r.
      * subst post. eapply IHsub; eauto.
    + destruct l as [|y l]; simpl in Heq; injection Heq as <- Heq.
      * apply Hhere. now rewrite app_nil_r.
      * destruct (IHtail _ _ _ Heq Hx)
          as (cc' & sub' & pre' & H1 & H2 & ->).
        exists cc', sub', (sub ++ e :: pre').
        repeat split; auto. now rewrite <- app_assoc.
Qed.

Lemma loop_stops_at_terminator (fuel : nat) (c : Z) (p : string) (n : Z)
  (idir : bool) (nm : string) (acc : list Entry) (data : bytes) (tag : byte) :
  _retrieve_data self fuel c true = Ok data ->
  index (slice data (32 * n) (32 * n + 32)) 11 = Ok tag ->
  get_entry_type tag = hex_0 ->
  loop (S fuel) c p n false idir nm acc = Ok acc.
Proof.
  intros Hdata Htag Hterm. cbn [parse_dir_loop].
  change (negb false) with true. rewrite orb_true_r, Hdata. cbn [bind].
  unfold _retrieve_data in Hdata.
  apply bind_Ok_inv in Hdata as (secs & -> & _). cbn [bind].
  rewrite Htag. cbn [bind]. rewrite Hterm, String.eqb_refl. reflexivity.
Qed.

Lemma loop_returns_at_terminator (fuel : nat) :
  forall c p n idir nm acc out,
    loop fuel c p n false idir nm acc = Ok out ->
    exists m data tag,
      n <= m
      /\ _retrieve_data self fuel c true = Ok data
      /\ index (slice data (32 * m) (32 * m + 32)) 11 = Ok tag
      /\ get_entry_type tag = hex_0.
Proof.
  induction fuel as [|fuel IH]; intros c p n idir nm acc out H.
  - rewrite loop_out_of_fuel in H. discriminate.
  - apply parse_dir_loop_step_inv in H
      as (data & secs & tag & Hdata & _ & Htag & [[Hterm _] | [_ H]]).
    + exists n, data, tag. repeat split; auto; [lia|].
      apply (retrieve_data_mono self fuel); [exact Hdata | lia].
    + destruct H as (idir' & nm' & sub & e & _ & _ & _ & _ & H).
      apply IH in H as (m & data' & tag' & Hm & Hdata' & Hrest).
      exists m, data', tag'. split; [lia|]. split; [|exact Hrest].
      apply (retrieve_data_mono self fuel); [exact Hdata' | lia].
Qed.

End WalkFacts.

(** ** The directory walk *)

(** C3 as the spec states it fails two levels down: on the sample volume the
    directory DEEP is found in the walk of SUB, whose parent path is [/SUB],
    and the entry B.TXT of DEEP carries the parent [/DEEP], not
    [/SUB/DEEP]. *)
Lemma parse_dir_nested_parent_counterexample :
  let out :=
    Sample.entries_of
      (parse_dir Sample.get_entry_type Sample.parse_name
         (Sample.mount Sample.image_A64) 10 2 EmptyString) in
  exists d e,
    nth_error out 3 = Some d
    /\ name d = "DEEP"%string
    /\ parent d = "/SUB"%string
    /\ content_cluster d = Some 6
    /\ nth_error out 2 = Some e
    /\ name e = "B.TXT"%string
    /\ dir_cluster e = 6
    /\ parent e = "/DEEP"%string
    /\ parent e <> (parent d ++ "/" ++ name d)%string.
Proof.
  cbv zeta. eexists. eexists.
  split; [vm_compute; reflexivity|].
  do 3 (split; [reflexivity|]).
  split; [vm_compute; reflexivity|].
  do 3 (split; [reflexivity|]).
  discriminate.
Qed.

(** C4 as the spec states it fails on Scenario A: with [sectors_per_fat = 8]
    the walk of cluster 2 raises the assertion of [_get_sectors]; on the same
    volume with [sectors_per_fat = 64] the entries of cluster 3 (and below)
    come first and SUB comes after them. *)
Lemma parse_dir_scenario_A_order_counterexample :
  parse_dir Sample.get_entry_type Sample.parse_name
    (Sample.mount Sample.image_A) 10 2 EmptyString
  = Raise AssertionError
  /\ exists out,
       parse_dir Sample.get_entry_type Sample.parse_name
         (Sample.mount Sample.image_A64) 10 2 EmptyString
       = Ok out
       /\ Sample.names out
          = ["."; ".."; "B.TXT"; "DEEP"; "SUB"; "A.TXT"]%string
       /\ map dir_cluster out = [3; 3; 6; 3; 2; 2].
Proof.
  split; [vm_compute; reflexivity|].
  eexists. split; [vm_compute; reflexivity|].
  split; reflexivity.
Qed.

(** C4, amended.  In the output of a walk, an entry that is recursed into
    stands directly after the entries that the walk of its content cluster
    returned.  On Scenario A with [sectors_per_fat = 64] the walk of cluster 2
    returns the entries under cluster 3, then SUB, then A.TXT. *)
Theorem parse_dir_appends_directory_after_its_entries :
  (forall (get_entry_type : byte -> string) (parse_name : bytes -> string)
          (self : Fat) (fuel : nat) (cluster : Z) (parent_path : string)
          (out pre post : list Entry) (e : Entry),
      parse_dir get_entry_type parse_name self fuel cluster parent_path
      = Ok out ->
      out = pre ++ e :: post ->
      is_recursed e ->
      exists cc sub pre',
        content_cluster e = Some cc
        /\ parse_dir get_entry_type parse_name self fuel cc
             ("/" ++ name e)%string
           = Ok sub
        /\ pre = pre' ++ sub)
  /\ (exists out,
         parse_dir Sample.get_entry_type Sample.parse_name
           (Sample.mount Sample.image_A64) 10 2 EmptyString
         = Ok out
         /\ Sample.names out
            = ["."; ".."; "B.TXT"; "DEEP"; "SUB"; "A.TXT"]%string
         /\ Sample.parents out
            = ["/SUB"; "/SUB"; "/DEEP"; "/SUB"; ""; ""]%string).
Proof.
  split.
  - intros get_entry_type parse_name self fuel cluster parent_path out pre
           post e Hrun Heq Hrec.
    apply walk_walked in Hrun.
    exact (walked_order _ _ _ _ _ _ _ _ Hrun pre e post Heq Hrec).
  - eexists. split; [vm_compute; reflexivity|]. split; reflexivity.
Qed.

Lemma parse_dir_appends_directory_witness :
  let fs := Sample.mount Sample.image_A64 in
  let sub_entry := mkEntry "" 2 0 [96] "dir" "SUB" false (Some 3)
                     None None None None in
  exists cc sub pre',
    content_cluster sub_entry = Some cc
    /\ parse_dir Sample.get_entry_type Sample.parse_name fs 10 cc
         ("/" ++ name sub_entry)%string
       = Ok sub
    /\ firstn 4
         (Sample.entries_of
            (parse_dir Sample.get_entry_type Sample.parse_name fs 10 2
               EmptyString))
       = pre' ++ sub.
Proof.
  cbv zeta.
  apply (proj1 parse_dir_appends_directory_after_its_entries
           Sample.get_entry_type Sample.parse_name
           (Sample.mount Sample.image_A64) 10%nat 2 EmptyString
           (Sample.entries_of
              (parse_dir Sample.get_entry_type Sample.parse_name
                 (Sample.mount Sample.image_A64) 10 2 EmptyString))
           _
           (skipn 5
              (Sample.entries_of
                 (parse_dir Sample.get_entry_type Sample.parse_name
                    (Sample.mount Sample.image_A64) 10 2 EmptyString)))).
  - vm_compute. reflexivity.
  - vm_compute. reflexivity.
  - vm_compute. repeat split; discriminate.
Defined.

(** C9.  The scan of a directory ends on the type tag alone.  When the byte
    at offset 11 of the record at [n] classifies as [hex(0)], the iteration
    returns the entries collected so far, whatever the other bytes of the
    record and whatever [is_dir] holds.  And a walk that returns has, at some
    entry number, a record whose tag classifies as [hex(0)]:
    [is_unallocated] is never set, so the condition of the [while] never
    ends the scan. *)
Theorem parse_dir_scan_ends_at_terminator_tag
  (get_entry_type : byte -> string) (parse_name : bytes -> string)
  (self : Fat) (fuel : nat) (cluster : Z) (parent_path : string) :
  (forall (n : Z) (is_dir : bool) (name : string) (acc : list Entry)
          (data : bytes) (tag : byte),
      _retrieve_data self fuel cluster true = Ok data ->
      index (slice data (32 * n) (32 * n + 32)) 11 = Ok tag ->
      get_entry_type tag = hex_0 ->
      parse_dir_loop get_entry_type parse_name self (S fuel) cluster
        parent_path n false is_dir name acc
      = Ok acc)
  /\ (forall out : list Entry,
         parse_dir get_entry_type parse_name self fuel cluster parent_path
         = Ok out ->
         exists (m : Z) (data : bytes) (tag : byte),
           0 <= m
           /\ _retrieve_data self fuel cluster true = Ok data
           /\ index (slice data (32 * m) (32 * m + 32)) 11 = Ok tag
           /\ get_entry_type tag = hex_0).
Proof.
  split.
  - intros n is_dir name acc data tag. apply loop_stops_at_terminator.
  - intros out Hrun. unfold parse_dir in Hrun.
    now apply loop_returns_at_terminator in Hrun.
Qed.

Lemma parse_dir_scan_ends_witness :
  let fs := Sample.mount Sample.image_A64 in
  parse_dir_loop Sample.get_entry_type Sample.parse_name fs 10 2 EmptyString
    2 false true "SUB" []
  = Ok []
  /\ exists (m : Z) (data : bytes) (tag : byte),
       0 <= m
       /\ _retrieve_data fs 10 2 true = Ok data
       /\ index (slice data (32 * m) (32 * m + 32)) 11 = Ok tag
       /\ Sample.get_entry_type tag = hex_0.
Proof.
  cbv zeta.
  pose proof (parse_dir_scan_ends_at_terminator_tag Sample.get_entry_type
                Sample.parse_name (Sample.mount Sample.image_A64) 9 2
                EmptyString) as [Hstop _].
  pose proof (parse_dir_scan_ends_at_terminator_tag Sample.get_entry_type
                Sample.parse_name (Sample.mount Sample.image_A64) 10 2
                EmptyString) as [_ Hreturn].
  split.
  - apply (Hstop 2 true "SUB"%string []
             (Sample.pad 512
                (Sample.dirent "SUB" x10 3 0
                   ++ Sample.dirent "A       TXT" x20 4 5))
             x00).
    + vm_compute. reflexivity.
    + vm_compute. reflexivity.
    + reflexivity.
  - apply (Hreturn
             (Sample.entries_of
                (parse_dir Sample.get_entry_type Sample.parse_name
                   (Sample.mount Sample.image_A64) 10 2 EmptyString))).
    vm_compute. reflexivity.
Defined.

(** ** The boot sector *)

Lemma pread_eq (f : bytes) (pos size : Z) :
  0 <= pos -> 0 <= size ->
  pread f pos size = Ok (firstn (Z.to_nat size) (skipn (Z.to_nat pos) f)).
Proof.
  intros Hpos Hsize. unfold pread.
  destruct (pos <? 0) eqn:H1; [apply Z.ltb_lt in H1; lia|].
  destruct (size <? 0) eqn:H2; [apply Z.ltb_lt in H2; lia|]. reflexivity.
Qed.

(** The run of [_parse_reserved_sector]: the seven fields are read wherever
    the image ends, and the outcome is that of the read of the FAT. *)
Lemma parse_reserved_sector_run (alloc_limit : N) (image : bytes) :
  let bps := read_field image 11 2 in
  let spc := read_field image 13 1 in
  let rs := read_field image 14 2 in
  let nf := read_field image 16 1 in
  let ts := read_field image 32 4 in
  let spf := read_field image 36 4 in
  let root := read_field image 44 4 in
  _parse_reserved_sector alloc_limit image
  = if Z.of_N alloc_limit <? spf * bps then Raise MemoryError
    else
      Ok (mkFat image
            (mkBoot bps spc rs nf ts spf root (bps * spc) rs (rs + spf - 1)
               (rs + spf * nf) (ts - 1))
            (firstn (Z.to_nat (spf * bps))
               (skipn (Z.to_nat (rs * bps)) image))).
Proof.
  cbv zeta. unfold _parse_reserved_sector.
  rewrite !pread_eq by lia. cbn [bind]. unfold pread_alloc.
  change (Z.to_nat 2) with 2%nat. change (Z.to_nat 1) with 1%nat.
  change (Z.to_nat 4) with 4%nat. change (Z.to_nat 11) with 11%nat.
  change (Z.to_nat 13) with 13%nat. change (Z.to_nat 14) with 14%nat.
  change (Z.to_nat 16) with 16%nat. change (Z.to_nat 32) with 32%nat.
  change (Z.to_nat 36) with 36%nat. change (Z.to_nat 44) with 44%nat.
  fold (read_field image 11 2). fold (read_field image 13 1).
  fold (read_field image 14 2). fold (read_field image 16 1).
  fold (read_field image 32 4). fold (read_field image 36 4).
  fold (read_field image 44 4).
  assert (Hpos : 0 <= read_field image 14 2 * read_field image 11 2)
    by (apply Z.mul_nonneg_nonneg; apply unpack_nonneg).
  assert (Hsize : 0 <= read_field image 36 4 * read_field image 11 2)
    by (apply Z.mul_nonneg_nonneg; apply unpack_nonneg).
  destruct (read_field image 14 2 * read_field image 11 2 <? 0) eqn:Hneg;
    [apply Z.ltb_lt in Hneg; lia|].
  destruct (Z.of_N alloc_limit
            <? read_field image 36 4 * read_field image 11 2);
    [reflexivity|].
  rewrite pread_eq by assumption. reflexivity.
Qed.

Lemma parse_reserved_sector_returns (alloc_limit : N) (image : bytes) :
  fat_size image <= Z.of_N alloc_limit ->
  exists fs, _parse_reserved_sector alloc_limit image = Ok fs.
Proof.
  intros Hsize. rewrite parse_reserved_sector_run. cbv zeta.
  unfold fat_size in Hsize. apply Z.ltb_ge in Hsize. rewrite Hsize. eauto.
Qed.

Lemma read_field_bound (image : bytes) (pos size : nat) :
  0 <= read_field image pos size < 256 ^ Z.of_nat size.
Proof.
  unfold read_field, unpack.
  pose proof (int_from_bytes_little_bound (firstn size (skipn pos image)))
    as Hb.
  pose proof (firstn_le_length size (skipn pos image)) as Hl.
  assert (256 ^ Z.of_nat (List.length (firstn size (skipn pos image)))
          <= 256 ^ Z.of_nat size) by (apply Z.pow_le_mono_r; lia).
  lia.
Qed.

Lemma parse_reserved_sector_inv (alloc_limit : N) (image : bytes) (fs : Fat) :
  _parse_reserved_sector alloc_limit image = Ok fs ->
  fat_size image <= Z.of_N alloc_limit
  /\ fs
     = mkFat image
         (mkBoot (read_field image 11 2) (read_field image 13 1)
            (read_field image 14 2) (read_field image 16 1)
            (read_field image 32 4) (read_field image 36 4)
            (read_field image 44 4)
            (read_field image 11 2 * read_field image 13 1)
            (read_field image 14 2)
            (read_field image 14 2 + read_field image 36 4 - 1)
            (read_field image 14 2
             + read_field image 36 4 * read_field image 16 1)
            (read_field image 32 4 - 1))
         (firstn (Z.to_nat (read_field image 36 4 * read_field image 11 2))
            (skipn (Z.to_nat (read_field image 14 2 * read_field image 11 2))
               image)).
Proof.
  rewrite parse_reserved_sector_run. cbv zeta. unfold fat_size.
  destruct (Z.of_N alloc_limit <? _) eqn:Hlim; [discriminate|].
  apply Z.ltb_ge in Hlim. intros H. split; [exact Hlim|]. congruence.
Qed.

(** The fields of a parsed boot sector have the widths of their reads: this
    is the range on which [true_div] is exact. *)
Lemma parse_reserved_sector_field_widths (alloc_limit : N) (image : bytes)
  (fs : Fat) :
  _parse_reserved_sector alloc_limit image = Ok fs ->
  0 <= bytes_per_sector (boot fs) < 2 ^ 16
  /\ 0 <= sectors_per_cluster (boot fs) < 2 ^ 8
  /\ 0 <= reserved_sectors (boot fs) < 2 ^ 16
  /\ 0 <= number_of_fats (boot fs) < 2 ^ 8
  /\ 0 <= total_sectors (boot fs) < 2 ^ 32
  /\ 0 <= sectors_per_fat (boot fs) < 2 ^ 32
  /\ 0 <= root_dir_first_cluster (boot fs) < 2 ^ 32.
Proof.
  intros H. apply parse_reserved_sector_inv in H as [_ ->].
  cbn [boot bytes_per_sector sectors_per_cluster reserved_sectors
         number_of_fats total_sectors sectors_per_fat root_dir_first_cluster].
  pose proof (read_field_bound image 11 2).
  pose proof (read_field_bound image 13 1).
  pose proof (read_field_bound image 14 2).
  pose proof (read_field_bound image 16 1).
  pose proof (read_field_bound image 32 4).
  pose proof (read_field_bound image 36 4).
  pose proof (read_field_bound image 44 4).
  change (256 ^ Z.of_nat 2) with (2 ^ 16) in *.
  change (256 ^ Z.of_nat 1) with (2 ^ 8) in *.
  change (256 ^ Z.of_nat 4) with (2 ^ 32) in *.
  repeat split; lia.
Qed.

Lemma parse_reserved_sector_mount (image : bytes) :
  fat_size image <= Z.of_N Sample.alloc_limit ->
  _parse_reserved_sector Sample.alloc_limit image = Ok (Sample.mount image).
Proof.
  intros Hsize.
  destruct (parse_reserved_sector_returns Sample.alloc_limit image Hsize)
    as (fs & Hfs).
  unfold Sample.mount. now rewrite Hfs.
Qed.


Lemma sample_fat_sizes :
  fat_size Sample.image_A <= Z.of_N Sample.alloc_limit
  /\ fat_size Sample.image_A64 <= Z.of_N Sample.alloc_limit
  /\ fat_size Sample.image_ts0 <= Z.of_N Sample.alloc_limit
  /\ fat_size Sample.image_spf0 <= Z.of_N Sample.alloc_limit
  /\ fat_size Sample.image_spc0 <= Z.of_N Sample.alloc_limit
  /\ fat_size Sample.image_cut_fat <= Z.of_N Sample.alloc_limit.
Proof. repeat split; vm_compute; discriminate. Qed.




(** * Further properties of the code *)

(** ** [unpack] *)

(** X1.  [unpack] reads its bytes least significant first: the value of a
    concatenation is the value of the first part plus the value of the second
    part shifted by the length of the first. *)
Theorem unpack_app (a b : bytes) :
  unpack (a ++ b) = unpack a + 256 ^ Z.of_nat (List.length a) * unpack b.
Proof.
  unfold unpack. induction a as [|x a IH].
  - cbn [app int_from_bytes_little List.length]. rewrite Z.pow_0_r. lia.
  - cbn [app int_from_bytes_little List.length].
    rewrite IH, Nat2Z.inj_succ, Z.pow_succ_r by lia. ring.
Qed.

Lemma byte_to_N_inj (x y : byte) : Byte.to_N x = Byte.to_N y -> x = y.
Proof.
  intros H. pose proof (Byte.of_to_N x) as Hx. rewrite H in Hx.
  rewrite Byte.of_to_N in Hx. now injection Hx.
Qed.

(** X2.  [unpack] loses nothing on a field of fixed width: two byte strings
    of the same length with the same value are equal. *)
Theorem unpack_injective (a b : bytes) :
  List.length a = List.length b -> unpack a = unpack b -> a = b.
Proof.
  unfold unpack. revert b.
  induction a as [|x a IH]; intros [|y b] Hlen Hval; try discriminate.
  - reflexivity.
  - cbn [int_from_bytes_little] in Hval.
    pose proof (Byte.to_N_bounded x). pose proof (Byte.to_N_bounded y).
    assert (Hxy : Byte.to_N x = Byte.to_N y) by lia.
    f_equal; [now apply byte_to_N_inj|].
    apply IH; [now injection Hlen|]. lia.
Qed.

Lemma unpack_injective_witness :
  [x02; x00; x01; x00] = Sample.le 4 65538.
Proof.
  apply unpack_injective; vm_compute; reflexivity.
Defined.

(** ** The boot sector, continued *)

(** X3.  [_parse_reserved_sector] checks no field and fails in one way only:
    it raises [MemoryError] when the FAT read asks for more than the machine
    grants.  Otherwise it returns, however short the image, a [Fat] object
    on that image whose read fields have the widths of their reads and whose
    derived fields are the documented functions of the read ones. *)
Theorem parse_reserved_sector_geometry (alloc_limit : N) (image : bytes) :
  (Z.of_N alloc_limit < fat_size image ->
   _parse_reserved_sector alloc_limit image = Raise MemoryError)
  /\ (fat_size image <= Z.of_N alloc_limit ->
      exists fs,
        _parse_reserved_sector alloc_limit image = Ok fs
        /\ file fs = image
        /\ (0 <= bytes_per_sector (boot fs) < 2 ^ 16
            /\ 0 <= sectors_per_cluster (boot fs) < 2 ^ 8
            /\ 0 <= reserved_sectors (boot fs) < 2 ^ 16
            /\ 0 <= number_of_fats (boot fs) < 2 ^ 8
            /\ 0 <= total_sectors (boot fs) < 2 ^ 32
            /\ 0 <= sectors_per_fat (boot fs) < 2 ^ 32
            /\ 0 <= root_dir_first_cluster (boot fs) < 2 ^ 32)
        /\ bytes_per_cluster (boot fs)
           = bytes_per_sector (boot fs) * sectors_per_cluster (boot fs)
        /\ fat0_sector_start (boot fs) = reserved_sectors (boot fs)
        /\ fat0_sector_end (boot fs)
           = fat0_sector_start (boot fs) + sectors_per_fat (boot fs) - 1
        /\ data_start (boot fs)
           = reserved_sectors (boot fs)
             + sectors_per_fat (boot fs) * number_of_fats (boot fs)
        /\ data_end (boot fs) = total_sectors (boot fs) - 1).
Proof.
  split.
  - intros Hbig. rewrite parse_reserved_sector_run. cbv zeta.
    unfold fat_size in Hbig. apply Z.ltb_lt in Hbig. now rewrite Hbig.
  - intros Hsize.
    destruct (parse_reserved_sector_returns alloc_limit image Hsize)
      as (fs & Hfs).
    exists fs. split; [exact Hfs|].
    pose proof (parse_reserved_sector_field_widths alloc_limit image fs Hfs)
      as Hw.
    apply parse_reserved_sector_inv in Hfs as [_ ->].
    cbn. repeat split; try reflexivity; apply Hw.
Qed.

Lemma parse_reserved_sector_geometry_witness :
  _parse_reserved_sector 1000000
    (Sample.boot_sector 1 32 1 0xFFFFFFFF 0xFFFFFFFF 2)
  = Raise MemoryError.
Proof.
  apply (proj1 (parse_reserved_sector_geometry 1000000
                  (Sample.boot_sector 1 32 1 0xFFFFFFFF 0xFFFFFFFF 2))).
  vm_compute. reflexivity.
Defined.

(** X4.  Whenever [_parse_reserved_sector] returns, the FAT it has loaded is
    the part of the image from byte [reserved_sectors * bytes_per_sector] on,
    cut at [sectors_per_fat * bytes_per_sector] bytes or at the end of the
    image, whichever comes first: an image that ends inside the FAT gives a
    short FAT. *)
Theorem parse_reserved_sector_loads_fat (alloc_limit : N) (image : bytes)
  (fs : Fat) :
  _parse_reserved_sector alloc_limit image = Ok fs ->
  let start := reserved_sectors (boot fs) * bytes_per_sector (boot fs) in
  let size := sectors_per_fat (boot fs) * bytes_per_sector (boot fs) in
  fat fs = firstn (Z.to_nat size) (skipn (Z.to_nat start) image)
  /\ Z.of_nat (List.length (fat fs))
     = Z.min size (Z.max 0 (Z.of_nat (List.length image) - start)).
Proof.
  intros Hfs start size.
  pose proof (parse_reserved_sector_field_widths alloc_limit image fs Hfs)
    as Hw.
  assert (Hfat : fat fs
                 = firstn (Z.to_nat size) (skipn (Z.to_nat start) image)).
  { subst start size. apply parse_reserved_sector_inv in Hfs as [_ ->].
    reflexivity. }
  split; [exact Hfat|].
  rewrite Hfat, length_firstn, length_skipn. subst start size. nia.
Qed.

Lemma parse_reserved_sector_loads_fat_witness :
  sectors_per_fat (boot (Sample.mount Sample.image_cut_fat)) = 64
  /\ Z.of_nat (List.length (fat (Sample.mount Sample.image_cut_fat)))
     = 8 * 512.
Proof.
  split; [vm_compute; reflexivity|].
  pose proof (parse_reserved_sector_loads_fat Sample.alloc_limit
                Sample.image_cut_fat (Sample.mount Sample.image_cut_fat))
    as H.
  destruct H as [_ H].
  - apply parse_reserved_sector_mount, sample_fat_sizes.
  - rewrite H. vm_compute. reflexivity.
Defined.

(** ** Sectors and chains, continued *)

Section ChainProperties.

Variable self : Fat.

(** X5.  With a positive number of sectors per cluster the clusters from 2 on
    tile the data area: every sector from [data_start] on lies between
    [_to_sector c] and [_end_sector c] for exactly one cluster [c >= 2]. *)
Theorem sector_in_exactly_one_cluster (sector : Z) :
  0 < sectors_per_cluster (boot self) ->
  data_start (boot self) <= sector ->
  exists c,
    (2 <= c /\ _to_sector self c <= sector <= _end_sector self c)
    /\ forall c', _to_sector self c' <= sector <= _end_sector self c' ->
                  c' = c.
Proof.
  intros Hspc Hsec. unfold _end_sector, _to_sector.
  set (spc := sectors_per_cluster (boot self)) in *.
  set (ds := data_start (boot self)) in *.
  exists ((sector - ds) / spc + 2).
  pose proof (Z.div_mod (sector - ds) spc ltac:(lia)) as Hdm.
  pose proof (Z.mod_pos_bound (sector - ds) spc Hspc) as Hmod.
  pose proof (Z.div_pos (sector - ds) spc ltac:(lia) Hspc) as Hdiv.
  split; [split; nia|].
  intros c' Hc'. nia.
Qed.

Lemma follow_chain_follows (fuel : nat) :
  forall c acc r,
    follow_chain self fuel (fat_entry self c) acc = Ok r ->
    exists rest,
      follows self c rest
      /\ r = acc ++ flat_map (cluster_sectors self) rest
      /\ (List.length rest <= fuel)%nat.
Proof.
  induction fuel as [|fuel IH]; intros c acc r H; simpl in H;
    destruct (fat_entry self c <=? 0x0FFFFFF8) eqn:Hv; try discriminate.
  - injection H as <-. exists []. simpl. apply Z.leb_gt in Hv.
    rewrite app_nil_r. repeat split; [lia | lia].
  - apply Z.leb_le in Hv.
    apply (IH (fat_entry self c)) in H as (rest & Hrest & -> & Hlen).
    exists (fat_entry self c :: rest). simpl.
    rewrite <- app_assoc. repeat split; auto; lia.
  - injection H as <-. exists []. simpl. apply Z.leb_gt in Hv.
    rewrite app_nil_r. repeat split; lia.
Qed.

Lemma get_sectors_ok_inv (fuel : nat) (number : Z) (sectors : list Z) :
  _get_sectors self fuel number = Ok sectors ->
  in_fat_bound self number
  /\ ((fat_entry self number = 0 /\ sectors = [])
      \/ (fat_entry self number <> 0
          /\ exists rest,
               follows self number rest
               /\ sectors = flat_map (cluster_sectors self) (number :: rest)
               /\ (List.length rest <= fuel)%nat)).
Proof.
  intros H.
  assert (Hb : in_fat_bound self number).
  { destruct (Z_lt_dec 0 (number * 4 + 4)) as [H1|H1];
      destruct (Z_lt_dec (number * 4 + 4) (sectors_per_fat (boot self)))
        as [H2|H2];
      try (split; assumption);
      rewrite get_sectors_out_of_bound in H
        by (unfold in_fat_bound; lia);
      discriminate. }
  split; [exact Hb|].
  rewrite get_sectors_in_bound in H by exact Hb.
  destruct (fat_entry self number =? 0) eqn:Hz; cbn [negb] in H.
  - left. apply Z.eqb_eq in Hz. split; [exact Hz | now injection H].
  - right. apply Z.eqb_neq in Hz. split; [exact Hz|].
    apply follow_chain_follows in H as (rest & Hrest & -> & Hlen).
    exists rest. simpl. auto.
Qed.

(** X6.  What [_get_sectors] returns is always the sector ranges of the
    clusters it went through: nothing for a first entry of 0, otherwise the
    ranges of [number] and of each next cluster, where a next cluster is
    whatever the entry of the previous one holds, up to 0x0FFFFFF8. *)
Theorem get_sectors_returns_followed_chain (fuel : nat) (number : Z)
  (sectors : list Z) :
  _get_sectors self fuel number = Ok sectors ->
  in_fat_bound self number
  /\ ((fat_entry self number = 0 /\ sectors = [])
      \/ (fat_entry self number <> 0
          /\ exists rest,
               follows self number rest
               /\ sectors = flat_map (cluster_sectors self) (number :: rest)
               /\ (List.length rest <= fuel)%nat)).
Proof. apply get_sectors_ok_inv. Qed.

(** X7.  A cluster resolves to the empty chain exactly when its FAT entry is
    0 (given at least one sector per cluster). *)
Theorem get_sectors_empty_iff_entry_zero (fuel : nat) (number : Z)
  (sectors : list Z) :
  0 < sectors_per_cluster (boot self) ->
  _get_sectors self fuel number = Ok sectors ->
  (sectors = [] <-> fat_entry self number = 0).
Proof.
  intros Hspc H.
  apply get_sectors_ok_inv in H
    as (_ & [[Hz ->] | (Hnz & rest & _ & -> & _)]).
  - tauto.
  - split; [|contradiction]. intros Hnil. exfalso.
    apply (f_equal (@List.length Z)) in Hnil.
    rewrite flat_map_cluster_sectors_length in Hnil. simpl in Hnil. lia.
Qed.

Lemma follow_chain_closed_orbit (orbit : Z -> Prop) :
  (forall v, orbit v -> v <= 0x0FFFFFF8 /\ orbit (fat_entry self v)) ->
  forall fuel v acc, orbit v -> follow_chain self fuel v acc = OutOfFuel.
Proof.
  intros Hclosed fuel.
  induction fuel as [|fuel IH]; intros v acc Hv;
    destruct (Hclosed v Hv) as [Hle Hnext]; simpl;
    apply Z.leb_le in Hle; rewrite Hle; [reflexivity|].
  now apply IH.
Qed.

(** X8.  The loop of [_get_sectors] detects no cycle.  When the entry of the
    first cluster is not 0 and lies in a set of clusters whose entries are
    all at most 0x0FFFFFF8 and stay in the set, no amount of fuel makes
    [_get_sectors] return.  So it is with cluster 0 of a volume whose entry 0
    is the usual 0x0FFFFFF8: cluster 0x0FFFFFF8 has its entry past the end of
    the FAT, which reads as 0, and 0 leads back to 0x0FFFFFF8. *)
Theorem get_sectors_never_returns_on_cycle (orbit : Z -> Prop) (number : Z) :
  (forall v, orbit v -> v <= 0x0FFFFFF8 /\ orbit (fat_entry self v)) ->
  in_fat_bound self number ->
  fat_entry self number <> 0 ->
  orbit (fat_entry self number) ->
  forall fuel, _get_sectors self fuel number = OutOfFuel.
Proof.
  intros Hclosed Hb Hnz Horbit fuel.
  rewrite get_sectors_in_bound by exact Hb.
  apply Z.eqb_neq in Hnz. rewrite Hnz. cbn [negb].
  now apply (follow_chain_closed_orbit orbit).
Qed.

End ChainProperties.

Lemma sector_in_exactly_one_cluster_witness :
  exists c,
    (2 <= c
     /\ _to_sector Sample.chain_fs c <= 103 <= _end_sector Sample.chain_fs c)
    /\ forall c',
         _to_sector Sample.chain_fs c' <= 103 <= _end_sector Sample.chain_fs c'
         -> c' = c.
Proof.
  apply (sector_in_exactly_one_cluster Sample.chain_fs 103).
  - vm_compute. reflexivity.
  - vm_compute. discriminate.
Defined.

Lemma get_sectors_returns_followed_chain_witness :
  let fs := Sample.mount Sample.image_stray in
  in_fat_bound fs 2
  /\ ((fat_entry fs 2 = 0 /\ [96; 20094; 94] = [])
      \/ (fat_entry fs 2 <> 0
          /\ exists rest,
               follows fs 2 rest
               /\ [96; 20094; 94] = flat_map (cluster_sectors fs) (2 :: rest)
               /\ (List.length rest <= 2)%nat)).
Proof.
  cbv zeta.
  apply (get_sectors_returns_followed_chain
           (Sample.mount Sample.image_stray) 2 2 [96; 20094; 94]).
  vm_compute. reflexivity.
Defined.

Lemma get_sectors_empty_iff_entry_zero_witness :
  @nil Z = [] <-> fat_entry (Sample.mount Sample.image_A64) 5 = 0.
Proof.
  apply (get_sectors_empty_iff_entry_zero
           (Sample.mount Sample.image_A64) 3 5 []).
  - vm_compute. reflexivity.
  - vm_compute. reflexivity.
Defined.

Lemma get_sectors_never_returns_witness :
  _get_sectors (Sample.mount Sample.image_A64) 1000 0 = OutOfFuel.
Proof.
  assert (H0 : fat_entry (Sample.mount Sample.image_A64) 0 = 0x0FFFFFF8)
    by (vm_compute; reflexivity).
  assert (H8 : fat_entry (Sample.mount Sample.image_A64) 0x0FFFFFF8 = 0)
    by (vm_compute; reflexivity).
  apply (get_sectors_never_returns_on_cycle (Sample.mount Sample.image_A64)
           (fun v => v = 0 \/ v = 0x0FFFFFF8) 0).
  - intros v [-> | ->].
    + rewrite H0. split; [lia | now right].
    + rewrite H8. split; [lia | now left].
  - vm_compute. split; reflexivity.
  - rewrite H0. discriminate.
  - rewrite H0. now right.
Defined.

(** ** Reading cluster data, continued *)

Section DataProperties.

Variable self : Fat.

Lemma read_sectors_ok (sectors : list Z) :
  0 <= bytes_per_sector (boot self) ->
  forall acc data,
    read_sectors self sectors acc = Ok data ->
    Forall (fun s => 0 <= s * bytes_per_sector (boot self)) sectors
    /\ data = acc ++ flat_map (sector_bytes self) sectors.
Proof.
  intros Hbps.
  induction sectors as [|s sectors IH]; intros acc data H; simpl in H.
  - injection H as <-. split; [constructor | now rewrite app_nil_r].
  - unfold pread in H.
    destruct (s * bytes_per_sector (boot self) <? 0) eqn:Hneg;
      [discriminate|].
    destruct (bytes_per_sector (boot self) <? 0) eqn:Hsize;
      [apply Z.ltb_lt in Hsize; lia|].
    cbn [bind] in H. apply IH in H as [Hall ->].
    apply Z.ltb_ge in Hneg. split; [now constructor|].
    simpl. now rewrite <- app_assoc.
Qed.

Lemma sector_bytes_length (s : Z) :
  (List.length (sector_bytes self s)
   <= Z.to_nat (bytes_per_sector (boot self)))%nat.
Proof. unfold sector_bytes. apply firstn_le_length. Qed.

Lemma sector_bytes_length_inside (s : Z) :
  0 <= bytes_per_sector (boot self) ->
  0 <= s ->
  (s + 1) * bytes_per_sector (boot self)
  <= Z.of_nat (List.length (file self)) ->
  List.length (sector_bytes self s)
  = Z.to_nat (bytes_per_sector (boot self)).
Proof.
  intros Hbps Hs Hin. unfold sector_bytes.
  rewrite length_firstn, length_skipn. nia.
Qed.

(** X9.  The buffer that [_retrieve_data] returns is the concatenation, in
    chain order, of what one read of [bytes_per_sector] bytes gives at each
    sector of the chain: at most [bytes_per_sector] bytes per sector, and
    exactly that many when every sector of the chain lies inside the
    image. *)
Theorem retrieve_data_concatenates_sector_reads (fuel : nat) (cluster : Z)
  (flag : bool) (data : bytes) :
  0 <= bytes_per_sector (boot self) ->
  _retrieve_data self fuel cluster flag = Ok data ->
  exists sectors,
    _get_sectors self fuel cluster = Ok sectors
    /\ data = flat_map (sector_bytes self) sectors
    /\ Z.of_nat (List.length data)
       <= Z.of_nat (List.length sectors) * bytes_per_sector (boot self)
    /\ (Forall (fun s => 0 <= s
                         /\ (s + 1) * bytes_per_sector (boot self)
                            <= Z.of_nat (List.length (file self)))
          sectors ->
        Z.of_nat (List.length data)
        = Z.of_nat (List.length sectors) * bytes_per_sector (boot self)).
Proof.
  intros Hbps H. unfold _retrieve_data in H.
  apply bind_Ok_inv in H as (sectors & Hsec & H).
  apply (read_sectors_ok sectors Hbps) in H as [_ Hdata]. simpl in Hdata.
  exists sectors. split; [exact Hsec|]. split; [exact Hdata|].
  subst data. clear Hsec. split.
  - induction sectors as [|s sectors IH]; cbn [flat_map List.length];
      [lia|].
    rewrite length_app, Nat2Z.inj_add, Nat2Z.inj_succ.
    pose proof (sector_bytes_length s). nia.
  - induction sectors as [|s sectors IH]; intros Hall;
      cbn [flat_map List.length]; [lia|].
    inversion Hall as [|? ? [Hs Hin] Hrest]; subst.
    rewrite length_app, Nat2Z.inj_add, Nat2Z.inj_succ.
    rewrite (sector_bytes_length_inside s) by assumption.
    specialize (IH Hrest). nia.
Qed.

Lemma read_sectors_negative (sectors : list Z) :
  Exists (fun s => s * bytes_per_sector (boot self) < 0) sectors ->
  forall acc, read_sectors self sectors acc = Raise OSError.
Proof.
  induction 1 as [s sectors Hneg | s sectors Hex IH]; intros acc; simpl.
  - unfold pread. apply Z.ltb_lt in Hneg. now rewrite Hneg.
  - unfold pread.
    destruct (s * bytes_per_sector (boot self) <? 0); [reflexivity|].
    cbn [bind]. apply IH.
Qed.

(** X10.  A chain with a sector at a negative byte offset cannot be read:
    [_retrieve_data] raises the [OSError] of the seek.  This is the case of
    clusters 0 and 1 on a volume whose data area starts less than two
    clusters into the image. *)
Theorem retrieve_data_negative_sector_raises (fuel : nat) (cluster : Z)
  (flag : bool) (sectors : list Z) :
  _get_sectors self fuel cluster = Ok sectors ->
  Exists (fun s => s * bytes_per_sector (boot self) < 0) sectors ->
  _retrieve_data self fuel cluster flag = Raise OSError.
Proof.
  intros Hsec Hneg. unfold _retrieve_data. rewrite Hsec. cbn [bind].
  now apply read_sectors_negative.
Qed.

Lemma get_first_cluster_ok_range (entry : bytes) (cc : Z) :
  _get_first_cluster self entry = Ok cc ->
  0 <= cc < 2 ^ 32
  /\ (0 < sectors_per_cluster (boot self) ->
      cc * sectors_per_cluster (boot self) <= total_sectors (boot self)).
Proof.
  unfold _get_first_cluster, true_div. intros H.
  destruct (sectors_per_cluster (boot self) =? 0) eqn:Hz; [discriminate|].
  cbn [bind] in H.
  pose proof (int_from_bytes_little_slice_16 entry 20 ltac:(lia)) as Hhi.
  pose proof (int_from_bytes_little_slice_16 entry 26 ltac:(lia)) as Hlo.
  change (20 + 2) with 22 in Hhi. change (26 + 2) with 28 in Hlo.
  rewrite Z.shiftl_mul_pow2 in H by lia.
  set (v := int_from_bytes_little (slice entry 20 22) * 2 ^ 16
            + int_from_bytes_little (slice entry 26 28)) in *.
  destruct (Qle_bool (inject_Z v) _) eqn:Hle in H; [|discriminate].
  assert (Hcc : v = cc) by congruence.
  split; [subst v; lia|]. intros Hspc.
  destruct (sectors_per_cluster (boot self)) as [|p|p]; try lia.
  rewrite Hcc in Hle. unfold Qle_bool, Qdiv, Qmult, Qinv, inject_Z in Hle.
  cbn in Hle. apply Z.leb_le in Hle. lia.
Qed.

(** X11.  [_get_first_cluster] divides by [sectors_per_cluster] before it
    checks anything: on a volume with no sector per cluster it raises
    [ZeroDivisionError] for every entry.  A cluster number that it returns is
    below 2^32 and, on a volume with a positive number of sectors per
    cluster, at most [total_sectors / sectors_per_cluster]. *)
Theorem get_first_cluster_range (entry : bytes) :
  (sectors_per_cluster (boot self) = 0 ->
   _get_first_cluster self entry = Raise ZeroDivisionError)
  /\ (forall cc,
         _get_first_cluster self entry = Ok cc ->
         0 <= cc < 2 ^ 32
         /\ (0 < sectors_per_cluster (boot self) ->
             cc * sectors_per_cluster (boot self)
             <= total_sectors (boot self))).
Proof.
  split.
  - unfold _get_first_cluster, true_div. intros ->. reflexivity.
  - apply get_first_cluster_ok_range.
Qed.

End DataProperties.

Lemma retrieve_data_concatenates_witness :
  exists sectors,
    _get_sectors (Sample.mount Sample.image_A64) 3 4 = Ok sectors
    /\ Sample.pad 512 (list_byte_of_string "helloOLD DATA")
       = flat_map (sector_bytes (Sample.mount Sample.image_A64)) sectors.
Proof.
  destruct (retrieve_data_concatenates_sector_reads
              (Sample.mount Sample.image_A64) 3 4 true
              (Sample.pad 512 (list_byte_of_string "helloOLD DATA")))
    as (sectors & H1 & H2 & _).
  - vm_compute. discriminate.
  - vm_compute. reflexivity.
  - exists sectors. split; assumption.
Defined.

Lemma retrieve_data_negative_sector_witness :
  _retrieve_data Sample.wide_fs 3 1 true = Raise OSError.
Proof.
  apply (retrieve_data_negative_sector_raises Sample.wide_fs 3 1 true
           (range (-23) 41)).
  - vm_compute. reflexivity.
  - left. vm_compute. reflexivity.
Defined.

Lemma get_first_cluster_range_witness :
  let fs := Sample.mount Sample.image_A64 in
  0 <= 3 < 2 ^ 32
  /\ (0 < sectors_per_cluster (boot fs) ->
      3 * sectors_per_cluster (boot fs) <= total_sectors (boot fs)).
Proof.
  cbv zeta.
  apply (proj2 (get_first_cluster_range (Sample.mount Sample.image_A64)
                  (Sample.dirent "SUB" x10 3 0)) 3).
  vm_compute. reflexivity.
Defined.

(** ** Content and slack, continued *)

(** X12.  For an unallocated first cluster [_get_content] reads directly at
    the first sector of the cluster: the content is [str] of the first
    [min(128, filesize)] bytes found there, whatever file they belong to,
    and there is no slack. *)
Theorem get_content_unallocated_reads_cluster (self : Fat) (fuel : nat)
  (cluster filesize : Z) :
  in_fat_bound self cluster ->
  fat_entry self cluster = 0 ->
  0 <= filesize ->
  0 <= _to_sector self cluster * bytes_per_sector (boot self) ->
  _get_content self fuel cluster filesize
  = Ok (str_of_bytes
          (firstn (Z.to_nat (Z.min 128 filesize))
             (skipn
                (Z.to_nat
                   (_to_sector self cluster * bytes_per_sector (boot self)))
                (file self))),
        None).
Proof.
  intros Hb Hz Hsize Hpos. unfold _get_content.
  rewrite retrieve_data_unallocated by assumption. cbn [bind].
  rewrite pread_eq by lia. reflexivity.
Qed.

Lemma get_content_unallocated_witness :
  _get_content (Sample.mount Sample.image_A64) 2 5 7
  = Ok ("b'deleted'"%string, None).
Proof.
  rewrite (get_content_unallocated_reads_cluster
             (Sample.mount Sample.image_A64) 2 5 7).
  - vm_compute. reflexivity.
  - vm_compute. split; reflexivity.
  - vm_compute. reflexivity.
  - lia.
  - vm_compute. discriminate.
Defined.

(** X13.  [_get_content] returns a slack exactly when the chain buffer is
    not empty. *)
Theorem get_content_slack_absent_iff_no_data (self : Fat) (fuel : nat)
  (cluster filesize : Z) (text : string) (rest : option string) :
  _get_content self fuel cluster filesize = Ok (text, rest) ->
  (rest = None <-> _retrieve_data self fuel cluster true = Ok []).
Proof.
  unfold _get_content. intros H.
  apply bind_Ok_inv in H as (data & Hdata & H). rewrite Hdata.
  destruct data as [|b data].
  - apply bind_Ok_inv in H as (chunk & _ & H). injection H as _ <-. tauto.
  - injection H as _ <-. split; discriminate.
Qed.

Lemma get_content_slack_absent_witness :
  @None string = None
  <-> _retrieve_data (Sample.mount Sample.image_A64) 2 5 true = Ok [].
Proof.
  apply (get_content_slack_absent_iff_no_data
           (Sample.mount Sample.image_A64) 2 5 7 "b'deleted'").
  vm_compute. reflexivity.
Defined.

(** ** [str(bytes)], continued *)

Lemma string_length_append (a b : string) :
  String.length (a ++ b) = (String.length a + String.length b)%nat.
Proof. induction a as [|c a IH]; simpl; [reflexivity | now rewrite IH]. Qed.

Lemma string_append_nil_r (a : string) : (a ++ "")%string = a.
Proof. induction a as [|c a IH]; simpl; [reflexivity | now rewrite IH]. Qed.

Lemma concat_empty_sep_cons (x : string) (l : list string) :
  String.concat EmptyString (x :: l)
  = (x ++ String.concat EmptyString l)%string.
Proof.
  destruct l as [|y l]; simpl; [now rewrite string_append_nil_r | reflexivity].
Qed.

Lemma plain_byte_repr (c : byte) :
  plain_byte c = true ->
  bytes_repr_char x27 c = String (ascii_of_byte c) EmptyString
  /\ Byte.eqb x27 c = false.
Proof. destruct c; intros H; try discriminate H; split; reflexivity. Qed.

(** X14.  On bytes that are all printable ASCII other than the single quote
    and the backslash, [str] is the text itself between [b'] and [']. *)
Theorem str_of_plain_bytes (data : bytes) :
  forallb plain_byte data = true ->
  str_of_bytes data = ("b'" ++ string_of_list_byte data ++ "'")%string.
Proof.
  intros Hplain. unfold str_of_bytes.
  assert (Hq : existsb (Byte.eqb x27) data = false).
  { induction data as [|c data IH]; [reflexivity|].
    simpl in *. apply andb_true_iff in Hplain as [Hc Hrest].
    destruct (plain_byte_repr c Hc) as [_ ->]. now apply IH. }
  rewrite Hq. cbn [andb]. cbv zeta.
  change (String "b" (String (ascii_of_byte x27) EmptyString)) with "b'"%string.
  change (String (ascii_of_byte x27) EmptyString) with "'"%string.
  f_equal. f_equal. clear Hq.
  induction data as [|c data IH]; [reflexivity|].
  simpl in Hplain. apply andb_true_iff in Hplain as [Hc Hrest].
  cbn [map]. rewrite concat_empty_sep_cons.
  destruct (plain_byte_repr c Hc) as [-> _]. rewrite (IH Hrest).
  reflexivity.
Qed.

Lemma str_of_plain_bytes_witness :
  str_of_bytes (list_byte_of_string "hello") = "b'hello'"%string.
Proof.
  apply (str_of_plain_bytes (list_byte_of_string "hello")).
  vm_compute. reflexivity.
Defined.

Lemma bytes_repr_char_length (quote c : byte) :
  (1 <= String.length (bytes_repr_char quote c) <= 4)%nat.
Proof.
  unfold bytes_repr_char.
  repeat match goal with
         | |- context [if ?b then _ else _] => destruct b
         end; simpl; lia.
Qed.

(** X15.  The text that [str] gives for [n] bytes has between [n + 3] and
    [4 * n + 3] characters: the [b], the two quotes, and one to four
    characters per byte.  A content of 128 bytes is a string of at most 515
    characters, a slack of 32 bytes one of at most 131. *)
Theorem str_of_bytes_length (data : bytes) :
  (List.length data + 3 <= String.length (str_of_bytes data)
   <= 4 * List.length data + 3)%nat.
Proof.
  unfold str_of_bytes. cbv zeta.
  rewrite !string_length_append. cbn [String.length].
  match goal with
  | |- context [if ?b then x22 else x27] =>
      generalize (if b then x22 else x27)
  end.
  intros quote.
  assert (H : (List.length data
               <= String.length
                    (String.concat EmptyString
                       (map (bytes_repr_char quote) data))
               <= 4 * List.length data)%nat).
  { induction data as [|c data IH]; [simpl; lia|].
    cbn [map List.length]. rewrite concat_empty_sep_cons.
    rewrite string_length_append.
    pose proof (bytes_repr_char_length quote c). lia. }
  lia.
Qed.

(** ** The directory walk, continued *)

Lemma index_0_of_index_11 {A : Type} (l : list A) (x : A) :
  index l 11 = Ok x -> exists y, index l 0 = Ok y.
Proof.
  destruct l as [|y l]; [discriminate|]. intros _. exists y.
  unfold index. cbn [List.length].
  destruct ((0 <? 0) || (Z.of_nat (S (List.length l)) <=? 0)) eqn:H;
    [|reflexivity].
  apply orb_true_iff in H as [H | H]; [discriminate|].
  apply Z.leb_le in H. lia.
Qed.

Lemma index_short {A : Type} (l : list A) (i : Z) :
  Z.of_nat (List.length l) <= i -> index l i = Raise IndexError.
Proof.
  intros H. unfold index.
  destruct (i <? 0) eqn:Hneg; [apply Z.ltb_lt in Hneg; lia|].
  apply Z.leb_le in H. rewrite H. now rewrite orb_true_r.
Qed.

Section WalkProperties.

Variable get_entry_type : byte -> string.
Variable parse_name : bytes -> string.
Variable self : Fat.

Local Abbreviation loop := (parse_dir_loop get_entry_type parse_name self).
Local Abbreviation walk := (parse_dir get_entry_type parse_name self).
Local Abbreviation walked' := (walked get_entry_type parse_name self).
Local Abbreviation decoded' := (decoded get_entry_type parse_name self).

Lemma decoded_keys_mono (fuel fuel' : nat) (record : bytes) (e : Entry) :
  decoded_keys self fuel record e ->
  (fuel <= fuel')%nat ->
  decoded_keys self fuel' record e.
Proof.
  intros H Hle. destruct H.
  - now apply keys_none.
  - now apply (keys_dir self fuel' record e cc).
  - now apply keys_empty_file.
  - apply (keys_file self fuel' record e cc text rest csecs); auto.
    + now apply (get_content_mono self fuel).
    + now apply (get_sectors_mono self fuel).
Qed.

Lemma decoded_mono (fuel fuel' : nat) (e : Entry) :
  decoded' fuel e -> (fuel <= fuel')%nat -> decoded' fuel' e.
Proof.
  intros (data & tag & first & Hn & Hdata & Hsecs & Htag & Hfirst & Hty
          & Hterm & Hname & Hdel & Hkeys) Hle.
  exists data, tag, first. cbv zeta in *.
  repeat split; auto.
  - now apply (retrieve_data_mono self fuel).
  - now apply (get_sectors_mono self fuel).
  - now apply (decoded_keys_mono fuel).
Qed.

(** One iteration that does not raise and does not find the terminator
    appends a [decoded] entry. *)
Lemma parse_dir_loop_step_decoded (fuel : nat) (c : Z) (p : string) (n : Z)
  (idir : bool) (nm : string) (acc out : list Entry) :
  0 <= n ->
  loop (S fuel) c p n false idir nm acc = Ok out ->
  out = acc
  \/ exists idir' nm' sub e,
       decoded' fuel e
       /\ (sub = []
           \/ exists cc, walk fuel cc ("/" ++ name e)%string = Ok sub)
       /\ loop fuel c p (n + 1) false idir' nm' ((acc ++ sub) ++ [e])
          = Ok out.
Proof.
  intros Hn H. cbn [parse_dir_loop] in H.
  change (negb false) with true in H. rewrite orb_true_r in H.
  apply bind_Ok_inv in H as (data & Hdata & H).
  apply bind_Ok_inv in H as (secs & Hsecs & H).
  apply bind_Ok_inv in H as (tag & Htag & H).
  destruct (get_entry_type tag =? hex_0)%string eqn:Hterm.
  { left. congruence. }
  right. apply String.eqb_neq in Hterm.
  apply bind_Ok_inv in H as (first & Hfirst & H).
  apply bind_Ok_inv in H as ([[[idir' nm'] des] e] & Hstep & H).
  set (record := slice data (32 * n) (32 * n + 32)) in *.
  assert (Hmade :
            forall cc size csecs text rest,
              decoded_keys self fuel record
                (mkEntry p c n secs (get_entry_type tag) (parse_name record)
                   (Byte.eqb first xe5) cc size csecs text rest) ->
              decoded' fuel
                (mkEntry p c n secs (get_entry_type tag) (parse_name record)
                   (Byte.eqb first xe5) cc size csecs text rest)).
  { intros cc size csecs text rest Hkeys. exists data, tag, first.
    cbn. repeat split; assumption. }
  destruct ((get_entry_type tag =? "dir")%string
            && negb (parse_name record =? ".")%string
            && negb (parse_name record =? "..")%string) eqn:Hrec.
  - apply bind_Ok_inv in Hstep as (cc & Hcc & Hstep).
    apply bind_Ok_inv in Hstep as (sub & Hsub & Hstep).
    injection Hstep as <- <- <- <-.
    apply andb_true_iff in Hrec as [Hrec Hdd].
    apply andb_true_iff in Hrec as [Hty Hd].
    apply String.eqb_eq in Hty.
    apply negb_true_iff, String.eqb_neq in Hd, Hdd.
    match type of H with
    | parse_dir_loop _ _ _ _ _ _ _ _ ?b ?s (_ ++ [?e]) = _ =>
        exists b, s, sub, e
    end.
    split; [|split; [right; exists cc; exact Hsub | exact H]].
    apply Hmade. apply (keys_dir self fuel record _ cc); try reflexivity.
    + repeat split; assumption.
    + exact Hcc.
  - assert (Hnot : forall cc size csecs text rest,
               ~ is_recursed
                   (mkEntry p c n secs (get_entry_type tag)
                      (parse_name record) (Byte.eqb first xe5) cc size csecs
                      text rest)).
    { intros cc size csecs text rest (Hdir & Hd & Hdd). cbn in *.
      apply String.eqb_eq in Hdir. apply String.eqb_neq in Hd, Hdd.
      rewrite Hdir, Hd, Hdd in Hrec. discriminate. }
    destruct (negb (get_entry_type tag =? "lfn")%string
              && negb (get_entry_type tag =? "vol")%string
              && negb (get_entry_type tag =? "dir")%string) eqn:Hfile.
    + apply andb_true_iff in Hfile as [Hfile Hnd].
      apply andb_true_iff in Hfile as [Hnl Hnv].
      apply negb_true_iff, String.eqb_neq in Hnl, Hnv, Hnd.
      apply bind_Ok_inv in Hstep as (cc & Hcc & Hstep).
      destruct (cc =? 0) eqn:Hz; cbn [negb] in Hstep.
      * apply Z.eqb_eq in Hz. subst cc. injection Hstep as <- <- <- <-.
        match type of H with
        | parse_dir_loop _ _ _ _ _ _ _ _ ?b ?s (_ ++ [?e]) = _ =>
            exists b, s, [], e
        end.
        split; [|split; [now left | rewrite app_nil_r; exact H]].
        apply Hmade. apply keys_empty_file; try reflexivity;
          [repeat split; assumption | exact Hcc].
      * apply Z.eqb_neq in Hz.
        apply bind_Ok_inv in Hstep as ([text rest] & Hcontent & Hstep).
        apply bind_Ok_inv in Hstep as (csecs & Hcsecs & Hstep).
        injection Hstep as <- <- <- <-.
        match type of H with
        | parse_dir_loop _ _ _ _ _ _ _ _ ?b ?s (_ ++ [?e]) = _ =>
            exists b, s, [], e
        end.
        split; [|split; [now left | rewrite app_nil_r; exact H]].
        apply Hmade.
        apply (keys_file self fuel record _ cc text rest csecs);
          try reflexivity; try assumption.
        repeat split; assumption.
    + injection Hstep as <- <- <- <-.
      match type of H with
        | parse_dir_loop _ _ _ _ _ _ _ _ ?b ?s (_ ++ [?e]) = _ =>
            exists b, s, [], e
        end.
        split; [|split; [now left | rewrite app_nil_r; exact H]].
      apply Hmade. apply keys_none; try reflexivity; [apply Hnot|].
      intros (Hnl & Hnv & Hnd). cbn in *.
      apply String.eqb_neq in Hnl, Hnv, Hnd.
      rewrite Hnl, Hnv, Hnd in Hfile. discriminate.
Qed.

Lemma loop_decoded (fuel : nat) :
  forall c p n idir nm acc out,
    0 <= n ->
    loop fuel c p n false idir nm acc = Ok out ->
    exists tail, out = acc ++ tail /\ Forall (decoded' fuel) tail.
Proof.
  induction fuel as [|fuel IH]; intros c p n idir nm acc out Hn H.
  - rewrite loop_out_of_fuel in H. discriminate.
  - assert (Hmono : forall l, Forall (decoded' fuel) l ->
                              Forall (decoded' (S fuel)) l).
    { intros l Hl. eapply Forall_impl; [|exact Hl].
      intros a Ha. apply (decoded_mono fuel); [exact Ha | lia]. }
    apply parse_dir_loop_step_decoded in H
      as [-> | (idir' & nm' & sub & e & He & Hsub & H)]; [ | | exact Hn].
    { exists []. split; [now rewrite app_nil_r | constructor]. }
    apply IH in H as (tail & -> & Htail); [|lia].
    exists (sub ++ e :: tail). split.
    { rewrite <- !app_assoc. reflexivity. }
    apply Forall_app. split.
    + destruct Hsub as [-> | (cc & Hsub)]; [constructor|].
      apply IH in Hsub as (sub' & Heq & Hsub'); [|lia].
      simpl in Heq. subst sub'. now apply Hmono.
    + constructor; [|now apply Hmono].
      apply (decoded_mono fuel); [exact He | lia].
Qed.

Lemma walk_decoded (fuel : nat) (c : Z) (p : string) (out : list Entry)
  (e : Entry) :
  walk fuel c p = Ok out -> In e out -> decoded' fuel e.
Proof.
  intros H Hin. apply loop_decoded in H as (tail & -> & H); [|lia].
  simpl in Hin. now apply (proj1 (Forall_forall _ _) H).
Qed.


End WalkProperties.

(** X16.  Every entry of the output of a walk is decoded from the 32-byte
    record at its [entry_num] in the data of its [dir_cluster]: its type is
    the class of the byte at offset 11, which is not the terminator class,
    its name is the decoded name of the record, it is deleted exactly when
    the first byte of the record is 0xE5, and its [dir_sectors] are the
    resolved chain of [dir_cluster]. *)
Theorem parse_dir_entry_decodes_its_record
  (get_entry_type : byte -> string) (parse_name : bytes -> string)
  (self : Fat) (fuel : nat) (cluster : Z) (parent_path : string)
  (out : list Entry) (e : Entry) :
  parse_dir get_entry_type parse_name self fuel cluster parent_path = Ok out ->
  In e out ->
  exists (data : bytes) (tag : byte),
    let record := slice data (32 * entry_num e) (32 * entry_num e + 32) in
    0 <= entry_num e
    /\ _retrieve_data self fuel (dir_cluster e) true = Ok data
    /\ _get_sectors self fuel (dir_cluster e) = Ok (dir_sectors e)
    /\ index record 11 = Ok tag
    /\ entry_type e = get_entry_type tag
    /\ entry_type e <> hex_0
    /\ name e = parse_name record
    /\ (deleted e = true <-> index record 0 = Ok xe5).
Proof.
  intros Hrun Hin.
  destruct (walk_decoded _ _ _ _ _ _ _ _ Hrun Hin)
    as (data & tag & first & Hn & Hdata & Hsecs & Htag & Hfirst & Hty
        & Hterm & Hname & Hdel & _).
  exists data, tag. cbv zeta in *. repeat split; auto; try congruence.
  - intros Hd. rewrite Hdel in Hd. apply Byte.byte_dec_bl in Hd. congruence.
  - intros Hx. rewrite Hdel. rewrite Hfirst in Hx. injection Hx as ->.
    reflexivity.
Qed.

Lemma is_recursed_not_file_type (e : Entry) :
  is_recursed e -> ~ is_file_type (entry_type e).
Proof. intros (Hdir & _) (_ & _ & Hnd). contradiction. Qed.

(** X17.  The dict of an entry has 7, 8 or 12 keys.  It has 7 exactly for an
    entry that is neither recursed into nor of a file type (a long file
    name, a volume label, the directories [.] and [..]); it has 12 exactly
    for an entry of a file type whose first cluster is not 0; a directory
    that is recursed into and a file whose first cluster is 0 have the 8 keys
    that end with [content_cluster]. *)
Theorem parse_dir_entry_has_7_8_or_12_keys
  (get_entry_type : byte -> string) (parse_name : bytes -> string)
  (self : Fat) (fuel : nat) (cluster : Z) (parent_path : string)
  (out : list Entry) (e : Entry) :
  parse_dir get_entry_type parse_name self fuel cluster parent_path = Ok out ->
  In e out ->
  (key_count e = 7%nat \/ key_count e = 8%nat \/ key_count e = 12%nat)
  /\ (key_count e = 7%nat
      <-> ~ is_recursed e /\ ~ is_file_type (entry_type e))
  /\ (key_count e = 8%nat -> exists cc, content_cluster e = Some cc)
  /\ (key_count e = 12%nat
      <-> is_file_type (entry_type e)
          /\ exists cc, content_cluster e = Some cc /\ cc <> 0).
Proof.
  intros Hrun Hin.
  destruct (walk_decoded _ _ _ _ _ _ _ _ Hrun Hin)
    as (data & tag & first & _ & _ & _ & _ & _ & _ & _ & _ & _ & Hkeys).
  cbv zeta in Hkeys. unfold key_count.
  destruct Hkeys as [record e Hnr Hnf H1 H2 H3 H4 H5
                    | record e cc Hr Hcc H1 H2 H3 H4 H5
                    | record e Hf Hcc H1 H2 H3 H4 H5
                    | record e cc text rest csecs Hf Hcc Hnz Hct Hcs
                        H1 H2 H3 H4 H5];
    rewrite H1, H2, H3, H4, H5; cbn [present Nat.add].
  - split; [now left|]. split; [tauto|]. split; [discriminate|].
    split; [discriminate | tauto].
  - pose proof (is_recursed_not_file_type e Hr).
    split; [right; now left|]. split; [split; [discriminate | tauto]|].
    split; [eauto|]. split; [discriminate | tauto].
  - split; [right; now left|]. split; [split; [discriminate | tauto]|].
    split; [eauto|]. split; [discriminate|].
    intros (_ & cc & Hsome & Hnz). congruence.
  - split; [right; now right|]. split; [split; [discriminate | tauto]|].
    split; [discriminate|]. split; [|reflexivity].
    intros _. split; [exact Hf|]. exists cc. auto.
Qed.

Lemma parse_dir_entry_decodes_witness :
  let fs := Sample.mount Sample.image_A64 in
  let e := mkEntry "/DEEP" 6 0 [100] "other" "B.TXT" false (Some 0)
             None None None None in
  exists (data : bytes) (tag : byte),
    let record := slice data (32 * entry_num e) (32 * entry_num e + 32) in
    0 <= entry_num e
    /\ _retrieve_data fs 10 (dir_cluster e) true = Ok data
    /\ _get_sectors fs 10 (dir_cluster e) = Ok (dir_sectors e)
    /\ index record 11 = Ok tag
    /\ entry_type e = Sample.get_entry_type tag
    /\ entry_type e <> hex_0
    /\ name e = Sample.parse_name record
    /\ (deleted e = true <-> index record 0 = Ok xe5).
Proof.
  cbv zeta.
  apply (parse_dir_entry_decodes_its_record Sample.get_entry_type
           Sample.parse_name (Sample.mount Sample.image_A64) 10 2 EmptyString
           (Sample.entries_of
              (parse_dir Sample.get_entry_type Sample.parse_name
                 (Sample.mount Sample.image_A64) 10 2 EmptyString))).
  - vm_compute. reflexivity.
  - vm_compute. right. right. left. reflexivity.
Defined.

Lemma parse_dir_entry_keys_witness :
  let e := mkEntry "/DEEP" 6 0 [100] "other" "B.TXT" false (Some 0)
             None None None None in
  (key_count e = 7%nat \/ key_count e = 8%nat \/ key_count e = 12%nat)
  /\ (key_count e = 7%nat
      <-> ~ is_recursed e /\ ~ is_file_type (entry_type e))
  /\ (key_count e = 8%nat -> exists cc, content_cluster e = Some cc)
  /\ (key_count e = 12%nat
      <-> is_file_type (entry_type e)
          /\ exists cc, content_cluster e = Some cc /\ cc <> 0).
Proof.
  cbv zeta.
  apply (parse_dir_entry_has_7_8_or_12_keys Sample.get_entry_type
           Sample.parse_name (Sample.mount Sample.image_A64) 10 2 EmptyString
           (Sample.entries_of
              (parse_dir Sample.get_entry_type Sample.parse_name
                 (Sample.mount Sample.image_A64) 10 2 EmptyString))).
  - vm_compute. reflexivity.
  - vm_compute. right. right. left. reflexivity.
Defined.

Lemma unpack_slice_32 (record : bytes) :
  0 <= unpack (slice record 28 32) < 2 ^ 32.
Proof.
  pose proof (int_from_bytes_little_bound (slice record 28 32)) as Hb.
  pose proof (slice_length_le record 28 32 ltac:(lia)) as Hl.
  assert (256 ^ Z.of_nat (List.length (slice record 28 32)) <= 256 ^ 4)
    by (apply Z.pow_le_mono_r; lia).
  unfold unpack. change (256 ^ 4) with (2 ^ 32) in *. lia.
Qed.

(** X18.  An entry of the output that has a [filesize] is a file with a
    first cluster other than 0: the size is a 32-bit value, [content] and
    [slack] are what [_get_content] returns for that cluster and size, and
    [content_sectors] is the resolved chain of the cluster. *)
Theorem parse_dir_file_entry_fields
  (get_entry_type : byte -> string) (parse_name : bytes -> string)
  (self : Fat) (fuel : nat) (cluster : Z) (parent_path : string)
  (out : list Entry) (e : Entry) (size : Z) :
  parse_dir get_entry_type parse_name self fuel cluster parent_path = Ok out ->
  In e out ->
  filesize e = Some size ->
  0 <= size < 2 ^ 32
  /\ is_file_type (entry_type e)
  /\ exists cc text rest csecs,
       content_cluster e = Some cc
       /\ cc <> 0
       /\ _get_content self fuel cc size = Ok (text, rest)
       /\ content e = Some text
       /\ slack e = Some rest
       /\ _get_sectors self fuel cc = Ok csecs
       /\ content_sectors e = Some csecs.
Proof.
  intros Hrun Hin Hsize.
  destruct (walk_decoded _ _ _ _ _ _ _ _ Hrun Hin)
    as (data & tag & first & _ & _ & _ & _ & _ & _ & _ & _ & _ & Hkeys).
  cbv zeta in Hkeys.
  destruct Hkeys as [record e Hnr Hnf H1 H2 H3 H4 H5
                    | record e cc Hr Hcc H1 H2 H3 H4 H5
                    | record e Hf Hcc H1 H2 H3 H4 H5
                    | record e cc text rest csecs Hf Hcc Hnz Hct Hcs
                        H1 H2 H3 H4 H5];
    try congruence.
  rewrite H2 in Hsize. injection Hsize as <-.
  split; [apply unpack_slice_32|]. split; [exact Hf|].
  exists cc, text, rest, csecs. auto 10.
Qed.

Lemma parse_dir_file_entry_fields_witness :
  let fs := Sample.mount Sample.image_A64 in
  0 <= 5 < 2 ^ 32
  /\ is_file_type "other"
  /\ exists cc text rest csecs,
       Some 4 = Some cc
       /\ cc <> 0
       /\ _get_content fs 10 cc 5 = Ok (text, rest)
       /\ Some "b'hello'"%string = Some text
       /\ Some
            (Some
               (str_of_bytes
                  (list_byte_of_string "OLD DATA" ++ Sample.zeros 24)))
          = Some rest
       /\ _get_sectors fs 10 cc = Ok csecs
       /\ Some [98] = Some csecs.
Proof.
  cbv zeta.
  apply (parse_dir_file_entry_fields Sample.get_entry_type
           Sample.parse_name (Sample.mount Sample.image_A64) 10 2 EmptyString
           (Sample.entries_of
              (parse_dir Sample.get_entry_type Sample.parse_name
                 (Sample.mount Sample.image_A64) 10 2 EmptyString))
           (mkEntry "" 2 1 [96] "other" "A.TXT" false (Some 4) (Some 5)
              (Some [98]) (Some "b'hello'"%string)
              (Some
                 (Some
                    (str_of_bytes
                       (list_byte_of_string "OLD DATA"
                          ++ Sample.zeros 24)))))).
  - vm_compute. reflexivity.
  - vm_compute. do 5 right. left. reflexivity.
  - reflexivity.
Defined.

(** X19.  A [content_cluster] in the output has passed the check of
    [_get_first_cluster]: it is a 32-bit value and, with a positive number of
    sectors per cluster, at most [total_sectors / sectors_per_cluster]. *)
Theorem parse_dir_content_cluster_in_range
  (get_entry_type : byte -> string) (parse_name : bytes -> string)
  (self : Fat) (fuel : nat) (cluster : Z) (parent_path : string)
  (out : list Entry) (e : Entry) (cc : Z) :
  parse_dir get_entry_type parse_name self fuel cluster parent_path = Ok out ->
  In e out ->
  content_cluster e = Some cc ->
  0 <= cc < 2 ^ 32
  /\ (0 < sectors_per_cluster (boot self) ->
      cc * sectors_per_cluster (boot self) <= total_sectors (boot self)).
Proof.
  intros Hrun Hin Hsome.
  destruct (walk_decoded _ _ _ _ _ _ _ _ Hrun Hin)
    as (data & tag & first & _ & _ & _ & _ & _ & _ & _ & _ & _ & Hkeys).
  cbv zeta in Hkeys.
  destruct Hkeys as [record e Hnr Hnf H1 H2 H3 H4 H5
                    | record e cc' Hr Hcc H1 H2 H3 H4 H5
                    | record e Hf Hcc H1 H2 H3 H4 H5
                    | record e cc' text rest csecs Hf Hcc Hnz Hct Hcs
                        H1 H2 H3 H4 H5];
    rewrite H1 in Hsome; try discriminate; injection Hsome as <-;
    exact (get_first_cluster_ok_range self record _ Hcc).
Qed.

Lemma parse_dir_content_cluster_witness :
  let fs := Sample.mount Sample.image_A64 in
  0 <= 6 < 2 ^ 32
  /\ (0 < sectors_per_cluster (boot fs) ->
      6 * sectors_per_cluster (boot fs) <= total_sectors (boot fs)).
Proof.
  cbv zeta.
  apply (parse_dir_content_cluster_in_range Sample.get_entry_type
           Sample.parse_name (Sample.mount Sample.image_A64) 10 2 EmptyString
           (Sample.entries_of
              (parse_dir Sample.get_entry_type Sample.parse_name
                 (Sample.mount Sample.image_A64) 10 2 EmptyString))
           (mkEntry "/SUB" 3 2 [97] "dir" "DEEP" false (Some 6)
              None None None None)).
  - vm_compute. reflexivity.
  - vm_compute. do 3 right. left. reflexivity.
  - reflexivity.
Defined.

(** ** Errors of the walk *)

Section WalkErrors.

Variable get_entry_type : byte -> string.
Variable parse_name : bytes -> string.
Variable self : Fat.

Local Abbreviation loop := (parse_dir_loop get_entry_type parse_name self).
Local Abbreviation walk := (parse_dir get_entry_type parse_name self).

Lemma loop_raises_past_end (fuel : nat) (cluster : Z)
  (parent_path : string) (n : Z) (is_dir : bool) (name : string)
  (acc : list Entry) (data : bytes) :
  _retrieve_data self fuel cluster true = Ok data ->
  0 <= n ->
  Z.of_nat (List.length data) < 32 * n + 12 ->
  loop (S fuel) cluster parent_path n false is_dir name acc
  = Raise IndexError.
Proof.
  intros Hdata Hn Hshort. cbn [parse_dir_loop].
  change (negb false) with true. rewrite orb_true_r, Hdata. cbn [bind].
  unfold _retrieve_data in Hdata.
  apply bind_Ok_inv in Hdata as (secs & -> & _). cbn [bind].
  rewrite index_short; [reflexivity|].
  rewrite slice_nonneg by lia. rewrite length_firstn, length_skipn. lia.
Qed.

(** X21.  The scan does not stop at the end of the directory data.  When it
    reaches an entry number whose record has no byte at offset 11 (the data
    holds fewer than [32 * n + 12] bytes), the iteration raises
    [IndexError]. *)
Theorem parse_dir_loop_raises_past_end_of_data (fuel : nat) (cluster : Z)
  (parent_path : string) (n : Z) (is_dir : bool) (name : string)
  (acc : list Entry) (data : bytes) :
  _retrieve_data self fuel cluster true = Ok data ->
  0 <= n ->
  Z.of_nat (List.length data) < 32 * n + 12 ->
  loop (S fuel) cluster parent_path n false is_dir name acc
  = Raise IndexError.
Proof. apply loop_raises_past_end. Qed.

(** X22.  The walk of an unallocated cluster raises [IndexError] in its
    first iteration: [_retrieve_data] returns no byte for it, so there is no
    record to classify. *)
Theorem parse_dir_unallocated_cluster_raises (fuel : nat) (cluster : Z)
  (parent_path : string) :
  in_fat_bound self cluster ->
  fat_entry self cluster = 0 ->
  walk (S fuel) cluster parent_path = Raise IndexError.
Proof.
  intros Hb Hz. unfold parse_dir.
  apply (loop_raises_past_end fuel cluster parent_path 0 false EmptyString
           [] []).
  - now apply retrieve_data_unallocated.
  - lia.
  - simpl. lia.
Qed.

(** X23.  An exception raised by the walk of a subdirectory is raised by the
    walk of the directory that holds it: the entries collected so far are
    lost with it. *)
Theorem parse_dir_loop_propagates_subdirectory_error (fuel : nat)
  (cluster : Z) (parent_path : string) (n : Z) (is_dir : bool)
  (name : string) (acc : list Entry) (data : bytes) (tag : byte) (cc : Z)
  (err : exn) :
  let record := slice data (32 * n) (32 * n + 32) in
  _retrieve_data self fuel cluster true = Ok data ->
  index record 11 = Ok tag ->
  get_entry_type tag = "dir"%string ->
  parse_name record <> "."%string ->
  parse_name record <> ".."%string ->
  _get_first_cluster self record = Ok cc ->
  walk fuel cc ("/" ++ parse_name record)%string = Raise err ->
  loop (S fuel) cluster parent_path n false is_dir name acc = Raise err.
Proof.
  intros record Hdata Htag Hdir Hd Hdd Hcc Hsub. cbn [parse_dir_loop].
  change (negb false) with true. rewrite orb_true_r, Hdata. cbn [bind].
  unfold _retrieve_data in Hdata.
  apply bind_Ok_inv in Hdata as (secs & -> & _). cbn [bind].
  fold record. rewrite Htag. cbn [bind]. rewrite Hdir.
  change ("dir" =? hex_0)%string with false. cbv iota.
  destruct (index_0_of_index_11 record tag Htag) as (first & ->).
  cbn [bind]. rewrite String.eqb_refl.
  apply String.eqb_neq in Hd, Hdd. rewrite Hd, Hdd. cbn [negb andb].
  rewrite Hcc. cbn [bind]. unfold parse_dir in Hsub. rewrite Hsub.
  reflexivity.
Qed.

End WalkErrors.

Lemma parse_dir_loop_raises_past_end_witness :
  parse_dir_loop Sample.get_entry_type Sample.parse_name Sample.chain_fs 3 3
    EmptyString 0 false false EmptyString []
  = Raise IndexError.
Proof.
  apply (parse_dir_loop_raises_past_end_of_data Sample.get_entry_type
           Sample.parse_name Sample.chain_fs 2 3 EmptyString 0 false
           EmptyString [] []).
  - vm_compute. reflexivity.
  - lia.
  - simpl. lia.
Defined.

Lemma parse_dir_unallocated_cluster_witness :
  parse_dir Sample.get_entry_type Sample.parse_name
    (Sample.mount Sample.image_gone) 1 4 "/GONE"
  = Raise IndexError.
Proof.
  apply (parse_dir_unallocated_cluster_raises Sample.get_entry_type
           Sample.parse_name (Sample.mount Sample.image_gone) 0 4).
  - vm_compute. split; reflexivity.
  - vm_compute. reflexivity.
Defined.

Lemma parse_dir_loop_propagates_witness :
  parse_dir_loop Sample.get_entry_type Sample.parse_name
    (Sample.mount Sample.image_gone) 3 2 EmptyString 1 false false
    EmptyString []
  = Raise IndexError.
Proof.
  apply (parse_dir_loop_propagates_subdirectory_error Sample.get_entry_type
           Sample.parse_name (Sample.mount Sample.image_gone) 2 2 EmptyString
           1 false EmptyString []
           (Sample.pad 512
              (Sample.dirent "A       TXT" x20 3 5
                 ++ Sample.dirent (String (ascii_of_byte xe5) "ONE") x10 4 0))
           x10 4 IndexError).
  - vm_compute. reflexivity.
  - vm_compute. reflexivity.
  - reflexivity.
  - vm_compute. discriminate.
  - vm_compute. discriminate.
  - vm_compute. reflexivity.
  - vm_compute. reflexivity.
Defined.

(** ** The run *)

Lemma parse_dir_asserts_out_of_bound (get_entry_type : byte -> string)
  (parse_name : bytes -> string) (self : Fat) (fuel : nat) (cluster : Z)
  (parent_path : string) :
  ~ in_fat_bound self cluster ->
  parse_dir get_entry_type parse_name self (S fuel) cluster parent_path
  = Raise AssertionError.
Proof.
  intros Hb. unfold parse_dir. cbn [parse_dir_loop]. cbn [negb orb].
  unfold _retrieve_data.
  now rewrite get_sectors_out_of_bound.
Qed.

(** X24.  A volume whose root directory cluster violates the bound of
    [_get_sectors] cannot be listed: the run parses the boot sector and then
    fails on the assertion in the first iteration of the walk.  With the
    root directory at cluster 2 this is every volume whose boot sector gives
    12 sectors per FAT or fewer. *)
Theorem main_asserts_root_within_fat_bound (alloc_limit : N)
  (get_entry_type : byte -> string) (parse_name : bytes -> string)
  (image : bytes) (fs : Fat) (fuel : nat) :
  _parse_reserved_sector alloc_limit image = Ok fs ->
  ~ in_fat_bound fs (root_dir_first_cluster (boot fs)) ->
  main alloc_limit get_entry_type parse_name image (S fuel)
  = Raise AssertionError.
Proof.
  intros Hfs Hb. unfold main. rewrite Hfs. cbn [bind info snd].
  now apply parse_dir_asserts_out_of_bound.
Qed.

Lemma main_asserts_root_witness :
  main Sample.alloc_limit Sample.get_entry_type Sample.parse_name
    Sample.image_A 1
  = Raise AssertionError.
Proof.
  apply (main_asserts_root_within_fat_bound Sample.alloc_limit
           Sample.get_entry_type Sample.parse_name Sample.image_A
           (Sample.mount Sample.image_A)).
  - apply parse_reserved_sector_mount, sample_fat_sizes.
  - vm_compute. intros [_ H]. discriminate.
Defined.

(** ** The first cluster on a volume with no sector per cluster *)


(** ** The scan, record by record *)

Lemma nth_error_split_Z {A : Type} (l : list A) (n : Z) :
  0 <= n < Z.of_nat (List.length l) ->
  exists l1 x l2,
    l = l1 ++ x :: l2
    /\ Z.of_nat (List.length l1) = n
    /\ nth_error l (Z.to_nat n) = Some x.
Proof.
  intros Hn.
  destruct (nth_error l (Z.to_nat n)) as [x|] eqn:Hx.
  - destruct (nth_error_split l (Z.to_nat n) Hx) as (l1 & l2 & -> & Hlen).
    exists l1, x, l2. split; [reflexivity|]. split; [lia | reflexivity].
  - apply nth_error_None in Hx. lia.
Qed.

Section ScanProperties.

Variable get_entry_type : byte -> string.
Variable parse_name : bytes -> string.
Variable self : Fat.

Local Abbreviation loop := (parse_dir_loop get_entry_type parse_name self).
Local Abbreviation walk := (parse_dir get_entry_type parse_name self).
Local Abbreviation decoded' := (decoded get_entry_type parse_name self).
Local Abbreviation scanned' := (scanned get_entry_type parse_name self).

Lemma scanned_mono (fuel fuel' : nat) (c : Z) (p : string) (n : Z)
  (l : list Entry) :
  scanned' fuel c p n l -> (fuel <= fuel')%nat -> scanned' fuel' c p n l.
Proof.
  intros H Hle.
  induction H as [c p n data tag Hdata Htag Hterm
                 | c p n e tail He Hp Hc Hn Hplain Htail IHtail
                 | c p n e cc sub tail He Hp Hc Hn Hrec Hcc Hrun
                     Hsub IHsub Htail IHtail].
  - apply (scanned_end _ _ _ _ _ _ _ data tag); auto.
    now apply (retrieve_data_mono self fuel).
  - apply scanned_plain; auto.
    now apply (decoded_mono get_entry_type parse_name self fuel).
  - apply (scanned_dir _ _ _ _ _ _ _ _ cc sub tail); auto.
    + now apply (decoded_mono get_entry_type parse_name self fuel).
    + now apply (walk_mono get_entry_type parse_name self fuel).
Qed.

(** One iteration that does not raise: the terminator at record [n], or the
    entry decoded from record [n], after the walk of its subdirectory when it
    is recursed into. *)
Lemma parse_dir_loop_step_scanned (fuel : nat) (c : Z) (p : string) (n : Z)
  (idir : bool) (nm : string) (acc out : list Entry) :
  0 <= n ->
  loop (S fuel) c p n false idir nm acc = Ok out ->
  (out = acc
   /\ exists data tag,
        _retrieve_data self fuel c true = Ok data
        /\ index (slice data (32 * n) (32 * n + 32)) 11 = Ok tag
        /\ get_entry_type tag = hex_0)
  \/ exists idir' nm' sub e,
       decoded' fuel e
       /\ parent e = p /\ dir_cluster e = c /\ entry_num e = n
       /\ ((~ is_recursed e /\ sub = [])
           \/ (is_recursed e
               /\ exists cc,
                    content_cluster e = Some cc
                    /\ walk fuel cc ("/" ++ name e)%string = Ok sub))
       /\ loop fuel c p (n + 1) false idir' nm' ((acc ++ sub) ++ [e])
          = Ok out.
Proof.
  intros Hn H. cbn [parse_dir_loop] in H.
  change (negb false) with true in H. rewrite orb_true_r in H.
  apply bind_Ok_inv in H as (data & Hdata & H).
  apply bind_Ok_inv in H as (secs & Hsecs & H).
  apply bind_Ok_inv in H as (tag & Htag & H).
  destruct (get_entry_type tag =? hex_0)%string eqn:Hterm.
  { left. apply String.eqb_eq in Hterm. split; [congruence|].
    exists data, tag. auto. }
  right. apply String.eqb_neq in Hterm.
  apply bind_Ok_inv in H as (first & Hfirst & H).
  apply bind_Ok_inv in H as ([[[idir' nm'] des] e] & Hstep & H).
  set (record := slice data (32 * n) (32 * n + 32)) in *.
  assert (Hmade :
            forall cc size csecs text rest,
              decoded_keys self fuel record
                (mkEntry p c n secs (get_entry_type tag) (parse_name record)
                   (Byte.eqb first xe5) cc size csecs text rest) ->
              decoded' fuel
                (mkEntry p c n secs (get_entry_type tag) (parse_name record)
                   (Byte.eqb first xe5) cc size csecs text rest)).
  { intros cc size csecs text rest Hkeys. exists data, tag, first.
    cbn. repeat split; assumption. }
  destruct ((get_entry_type tag =? "dir")%string
            && negb (parse_name record =? ".")%string
            && negb (parse_name record =? "..")%string) eqn:Hrec.
  - apply bind_Ok_inv in Hstep as (cc & Hcc & Hstep).
    apply bind_Ok_inv in Hstep as (sub & Hsub & Hstep).
    injection Hstep as <- <- <- <-.
    apply andb_true_iff in Hrec as [Hrec Hdd].
    apply andb_true_iff in Hrec as [Hty Hd].
    apply String.eqb_eq in Hty.
    apply negb_true_iff, String.eqb_neq in Hd, Hdd.
    match type of H with
    | parse_dir_loop _ _ _ _ _ _ _ _ ?b ?s (_ ++ [?e]) = _ =>
        exists b, s, sub, e
    end.
    assert (Hr : is_recursed
                   (mkEntry p c n secs (get_entry_type tag)
                      (parse_name record) (Byte.eqb first xe5) (Some cc)
                      None None None None))
      by (repeat split; assumption).
    split.
    { apply Hmade. apply (keys_dir self fuel record _ cc);
        try reflexivity; assumption. }
    do 3 (split; [reflexivity|]).
    split; [|exact H]. right. split; [exact Hr|].
    exists cc. split; [reflexivity | exact Hsub].
  - assert (Hnot : forall cc size csecs text rest,
               ~ is_recursed
                   (mkEntry p c n secs (get_entry_type tag)
                      (parse_name record) (Byte.eqb first xe5) cc size csecs
                      text rest)).
    { intros cc size csecs text rest (Hdir & Hd & Hdd). cbn in *.
      apply String.eqb_eq in Hdir. apply String.eqb_neq in Hd, Hdd.
      rewrite Hdir, Hd, Hdd in Hrec. discriminate. }
    assert (Hfinish :
              forall idir0 nm0 cc size csecs text rest,
                decoded_keys self fuel record
                  (mkEntry p c n secs (get_entry_type tag)
                     (parse_name record) (Byte.eqb first xe5) cc size csecs
                     text rest) ->
                loop fuel c p (n + 1) false idir0 nm0
                  (acc
                     ++ [mkEntry p c n secs (get_entry_type tag)
                           (parse_name record) (Byte.eqb first xe5) cc size
                           csecs text rest])
                = Ok out ->
                exists idir' nm' sub e,
                  decoded' fuel e
                  /\ parent e = p /\ dir_cluster e = c /\ entry_num e = n
                  /\ ((~ is_recursed e /\ sub = [])
                      \/ (is_recursed e
                          /\ exists cc,
                               content_cluster e = Some cc
                               /\ walk fuel cc ("/" ++ name e)%string
                                  = Ok sub))
                  /\ loop fuel c p (n + 1) false idir' nm'
                       ((acc ++ sub) ++ [e])
                     = Ok out).
    { intros idir0 nm0 cc size csecs text rest Hkeys Hloop.
      exists idir0, nm0, [].
      eexists. split; [apply Hmade; exact Hkeys|].
      do 3 (split; [reflexivity|]).
      split; [left; split; [apply Hnot | reflexivity]|].
      rewrite app_nil_r. exact Hloop. }
    destruct (negb (get_entry_type tag =? "lfn")%string
              && negb (get_entry_type tag =? "vol")%string
              && negb (get_entry_type tag =? "dir")%string) eqn:Hfile.
    + apply andb_true_iff in Hfile as [Hfile Hnd].
      apply andb_true_iff in Hfile as [Hnl Hnv].
      apply negb_true_iff, String.eqb_neq in Hnl, Hnv, Hnd.
      apply bind_Ok_inv in Hstep as (cc & Hcc & Hstep).
      destruct (cc =? 0) eqn:Hz; cbn [negb] in Hstep.
      * apply Z.eqb_eq in Hz. subst cc. injection Hstep as <- <- <- <-.
        eapply Hfinish; [|exact H].
        apply keys_empty_file; try reflexivity;
          [repeat split; assumption | exact Hcc].
      * apply Z.eqb_neq in Hz.
        apply bind_Ok_inv in Hstep as ([text rest] & Hcontent & Hstep).
        apply bind_Ok_inv in Hstep as (csecs & Hcsecs & Hstep).
        injection Hstep as <- <- <- <-.
        eapply Hfinish; [|exact H].
        apply (keys_file self fuel record _ cc text rest csecs);
          try reflexivity; try assumption.
        repeat split; assumption.
    + injection Hstep as <- <- <- <-.
      eapply Hfinish; [|exact H].
      apply keys_none; try reflexivity; [apply Hnot|].
      intros (Hnl & Hnv & Hnd). cbn in *.
      apply String.eqb_neq in Hnl, Hnv, Hnd.
      rewrite Hnl, Hnv, Hnd in Hfile. discriminate.
Qed.

Lemma loop_scanned (fuel : nat) :
  forall c p n idir nm acc out,
    0 <= n ->
    loop fuel c p n false idir nm acc = Ok out ->
    exists tail, out = acc ++ tail /\ scanned' fuel c p n tail.
Proof.
  induction fuel as [|fuel IH]; intros c p n idir nm acc out Hn H.
  - rewrite loop_out_of_fuel in H. discriminate.
  - apply parse_dir_loop_step_scanned in H
      as [(-> & data & tag & Hdata & Htag & Hterm)
         | (idir' & nm' & sub & e & He & Hp & Hc & Hnum & Hsub & H)];
      [ | | exact Hn].
    { exists []. split; [now rewrite app_nil_r|].
      apply (scanned_end _ _ _ _ _ _ _ data tag); auto.
      apply (retrieve_data_mono self fuel); [exact Hdata | lia]. }
    apply IH in H as (tail & -> & Htail); [|lia].
    apply (scanned_mono fuel (S fuel)) in Htail; [|lia].
    apply (decoded_mono get_entry_type parse_name self fuel (S fuel)) in He;
      [|lia].
    exists (sub ++ e :: tail). split.
    { rewrite <- !app_assoc. reflexivity. }
    destruct Hsub as [[Hplain ->] | [Hrec (cc & Hcc & Hsub)]].
    + simpl. now apply scanned_plain.
    + apply IH in Hsub as Hw; [|lia]. destruct Hw as (sub' & Heq & Hw).
      simpl in Heq. subst sub'.
      apply (scanned_mono fuel (S fuel)) in Hw; [|lia].
      apply (walk_mono get_entry_type parse_name self fuel (S fuel)) in Hsub;
        [|lia].
      apply (scanned_dir _ _ _ _ _ _ _ _ cc sub tail); auto.
Qed.

Lemma walk_scanned (fuel : nat) (c : Z) (p : string) (out : list Entry) :
  walk fuel c p = Ok out -> scanned' fuel c p 0 out.
Proof.
  intros H. apply loop_scanned in H as (tail & -> & H); [exact H | lia].
Qed.

(** The output of a scan in blocks, one per record before the terminator. *)
Lemma scanned_blocks (fuel : nat) (c : Z) (p : string) (n : Z)
  (l : list Entry) :
  scanned' fuel c p n l ->
  exists (blocks : list (list Entry * Entry)) (data : bytes) (tag : byte),
    l = flat_map block_entries blocks
    /\ _retrieve_data self fuel c true = Ok data
    /\ index
         (slice data (32 * (n + Z.of_nat (List.length blocks)))
            (32 * (n + Z.of_nat (List.length blocks)) + 32)) 11
       = Ok tag
    /\ get_entry_type tag = hex_0
    /\ forall i sub e,
         nth_error blocks i = Some (sub, e) ->
         decoded' fuel e
         /\ entry_num e = n + Z.of_nat i
         /\ parent e = p
         /\ dir_cluster e = c
         /\ (is_recursed e ->
             exists cc,
               content_cluster e = Some cc
               /\ walk fuel cc ("/" ++ name e)%string = Ok sub)
         /\ (~ is_recursed e -> sub = []).
Proof.
  induction 1 as [c p n data tag Hdata Htag Hterm
                 | c p n e tail He Hp Hc Hn Hplain Htail IHtail
                 | c p n e cc sub tail He Hp Hc Hn Hrec Hcc Hrun
                     Hsub IHsub Htail IHtail].
  - exists [], data, tag. cbn [List.length flat_map].
    rewrite Z.add_0_r. repeat split; auto.
    all: intros; destruct i; discriminate.
  - destruct IHtail as (blocks & data & tag & -> & Hdata & Htag & Hterm
                        & Hblocks).
    exists (([], e) :: blocks), data, tag. cbn [List.length].
    rewrite Nat2Z.inj_succ.
    replace (n + Z.succ (Z.of_nat (List.length blocks)))
      with (n + 1 + Z.of_nat (List.length blocks)) by lia.
    split; [reflexivity|]. do 3 (split; [assumption|]).
    intros [|i] sub x H; simpl in H.
    + injection H as <- <-. repeat split; auto; [lia | contradiction].
    + destruct (Hblocks i sub x H) as (H0 & H1 & H2).
      split; [exact H0|]. split; [lia | exact H2].
  - destruct IHtail as (blocks & data & tag & -> & Hdata & Htag & Hterm
                        & Hblocks).
    exists ((sub, e) :: blocks), data, tag. cbn [List.length].
    rewrite Nat2Z.inj_succ.
    replace (n + Z.succ (Z.of_nat (List.length blocks)))
      with (n + 1 + Z.of_nat (List.length blocks)) by lia.
    split.
    { cbn [flat_map]. change (block_entries (sub, e)) with (sub ++ [e]).
      now rewrite <- app_assoc. }
    do 3 (split; [assumption|]).
    intros [|i] sub' x H; simpl in H.
    + injection H as <- <-. repeat split; auto; [lia | | contradiction].
      intros _. exists cc. auto.
    + destruct (Hblocks i sub' x H) as (H0 & H1 & H2).
      split; [exact H0|]. split; [lia | exact H2].
Qed.

End ScanProperties.

Lemma decoded_record (get_entry_type : byte -> string)
  (parse_name : bytes -> string) (self : Fat) (fuel : nat) (e : Entry)
  (data : bytes) :
  decoded get_entry_type parse_name self fuel e ->
  _retrieve_data self fuel (dir_cluster e) true = Ok data ->
  let record := slice data (32 * entry_num e) (32 * entry_num e + 32) in
  exists tag,
    index record 11 = Ok tag
    /\ get_entry_type tag <> hex_0
    /\ entry_type e = get_entry_type tag
    /\ name e = parse_name record
    /\ decoded_keys self fuel record e.
Proof.
  intros (data' & tag & first & Hn & Hdata' & Hsecs & Htag & Hfirst & Hty
          & Hterm & Hname & Hdel & Hkeys) Hdata.
  cbv zeta in *. rewrite Hdata in Hdata'. injection Hdata' as <-.
  exists tag. auto.
Qed.

Lemma recursed_keys_first_cluster (self : Fat) (fuel : nat) (record : bytes)
  (e : Entry) (cc : Z) :
  decoded_keys self fuel record e ->
  is_recursed e ->
  content_cluster e = Some cc ->
  _get_first_cluster self record = Ok cc.
Proof.
  intros Hkeys Hrec Hcc.
  destruct Hkeys as [record e Hnr Hnf H1 H2 H3 H4 H5
                    | record e cc' Hr Hgfc H1 H2 H3 H4 H5
                    | record e Hf Hgfc H1 H2 H3 H4 H5
                    | record e cc' text rest csecs Hf Hgfc Hnz Hct Hcs
                        H1 H2 H3 H4 H5].
  - contradiction.
  - congruence.
  - destruct (is_recursed_not_file_type e Hrec Hf).
  - destruct (is_recursed_not_file_type e Hrec Hf).
Qed.

(** X20.  The output of a walk is made of one block per record of the
    directory before the first record whose type tag is the terminator, in
    record order: the block of record [i] is the result of the walk of the
    subdirectory (for a dir entry not named [.] or [..]; nothing otherwise)
    followed by the entry of the record, which carries the entry number [i],
    the parent path and the cluster of the call, the class of the type tag
    of the record, which is not the terminator, and its decoded name. *)
Theorem parse_dir_output_is_blocks
  (get_entry_type : byte -> string) (parse_name : bytes -> string)
  (self : Fat) (fuel : nat) (cluster : Z) (parent_path : string)
  (out : list Entry) :
  parse_dir get_entry_type parse_name self fuel cluster parent_path = Ok out ->
  exists (blocks : list (list Entry * Entry)) (data : bytes) (tag : byte),
    out = flat_map block_entries blocks
    /\ _retrieve_data self fuel cluster true = Ok data
    /\ index
         (slice data (32 * Z.of_nat (List.length blocks))
            (32 * Z.of_nat (List.length blocks) + 32)) 11
       = Ok tag
    /\ get_entry_type tag = hex_0
    /\ forall i sub e,
         nth_error blocks i = Some (sub, e) ->
         let record :=
           slice data (32 * Z.of_nat i) (32 * Z.of_nat i + 32) in
         entry_num e = Z.of_nat i
         /\ parent e = parent_path
         /\ dir_cluster e = cluster
         /\ (exists tag_i,
               index record 11 = Ok tag_i
               /\ get_entry_type tag_i <> hex_0
               /\ entry_type e = get_entry_type tag_i)
         /\ name e = parse_name record
         /\ (is_recursed e ->
             exists cc,
               content_cluster e = Some cc
               /\ parse_dir get_entry_type parse_name self fuel cc
                    ("/" ++ name e)%string
                  = Ok sub)
         /\ (~ is_recursed e -> sub = []).
Proof.
  intros Hrun. apply walk_scanned in Hrun.
  destruct (scanned_blocks _ _ _ _ _ _ _ _ Hrun)
    as (blocks & data & tag & Hout & Hdata & Htag & Hterm & Hblocks).
  exists blocks, data, tag. rewrite Z.add_0_l in Htag.
  do 4 (split; [assumption|]).
  intros i sub e Hi. cbv zeta.
  destruct (Hblocks i sub e Hi) as (He & Hn & Hp & Hc & Hrec & Hplain).
  rewrite Z.add_0_l in Hn.
  rewrite <- Hc in Hdata.
  destruct (decoded_record _ _ _ _ _ _ He Hdata)
    as (tag_i & Htag_i & Hnt & Hty & Hname & _).
  cbv zeta in *. rewrite Hn in Htag_i, Hname.
  repeat split; auto. exists tag_i. auto.
Qed.

Lemma parse_dir_output_is_blocks_witness :
  let fs := Sample.mount Sample.image_A64 in
  let out :=
    Sample.entries_of
      (parse_dir Sample.get_entry_type Sample.parse_name fs 10 3 "/SUB") in
  exists (blocks : list (list Entry * Entry)) (data : bytes) (tag : byte),
    out = flat_map block_entries blocks
    /\ _retrieve_data fs 10 3 true = Ok data
    /\ index
         (slice data (32 * Z.of_nat (List.length blocks))
            (32 * Z.of_nat (List.length blocks) + 32)) 11
       = Ok tag
    /\ Sample.get_entry_type tag = hex_0
    /\ forall i sub e,
         nth_error blocks i = Some (sub, e) ->
         let record :=
           slice data (32 * Z.of_nat i) (32 * Z.of_nat i + 32) in
         entry_num e = Z.of_nat i
         /\ parent e = "/SUB"%string
         /\ dir_cluster e = 3
         /\ (exists tag_i,
               index record 11 = Ok tag_i
               /\ Sample.get_entry_type tag_i <> hex_0
               /\ entry_type e = Sample.get_entry_type tag_i)
         /\ name e = Sample.parse_name record
         /\ (is_recursed e ->
             exists cc,
               content_cluster e = Some cc
               /\ parse_dir Sample.get_entry_type Sample.parse_name fs 10 cc
                    ("/" ++ name e)%string
                  = Ok sub)
         /\ (~ is_recursed e -> sub = []).
Proof.
  cbv zeta.
  apply (parse_dir_output_is_blocks Sample.get_entry_type Sample.parse_name
           (Sample.mount Sample.image_A64) 10 3 "/SUB").
  vm_compute. reflexivity.
Defined.

(** C3, amended.  The walk of a subdirectory is started with the parent path
    ["/" + name], whatever the parent path of the directory that holds it.
    In a walk that returns, with [m] the number of the first record whose
    type tag is the terminator: for every record before it that classifies as
    [dir] and whose name is neither [.] nor [..], the walk of the first
    cluster of the record with the parent path ["/" + name] has returned, and
    its result stands in the output directly before the entry of the record;
    and every entry of the output carries either the parent path of the call
    (the entries of the directory walked) or ["/" + name d] for the recursed
    entry [d] of the output whose content cluster holds it.  On the sample
    volume the entry of DEEP, found under [/SUB], gives its own entries the
    parent [/DEEP]. *)
Theorem parse_dir_recurses_with_slash_name :
  (forall (get_entry_type : byte -> string) (parse_name : bytes -> string)
          (self : Fat) (fuel : nat) (cluster : Z) (parent_path : string)
          (out : list Entry),
      parse_dir get_entry_type parse_name self fuel cluster parent_path
      = Ok out ->
      exists (data : bytes) (m : Z),
        _retrieve_data self fuel cluster true = Ok data
        /\ 0 <= m
        /\ (exists tag,
              index (slice data (32 * m) (32 * m + 32)) 11 = Ok tag
              /\ get_entry_type tag = hex_0)
        /\ (forall n tag,
              0 <= n < m ->
              let record := slice data (32 * n) (32 * n + 32) in
              index record 11 = Ok tag ->
              get_entry_type tag <> hex_0
              /\ (get_entry_type tag = "dir"%string ->
                  parse_name record <> "."%string ->
                  parse_name record <> ".."%string ->
                  exists cc sub pre post d,
                    _get_first_cluster self record = Ok cc
                    /\ parse_dir get_entry_type parse_name self fuel cc
                         ("/" ++ parse_name record)%string
                       = Ok sub
                    /\ out = pre ++ sub ++ d :: post
                    /\ parent d = parent_path
                    /\ dir_cluster d = cluster
                    /\ entry_num d = n
                    /\ name d = parse_name record
                    /\ content_cluster d = Some cc))
        /\ (forall e,
              In e out ->
              (parent e = parent_path /\ dir_cluster e = cluster)
              \/ exists d,
                   In d out /\ is_recursed d
                   /\ content_cluster d = Some (dir_cluster e)
                   /\ parent e = ("/" ++ name d)%string))
  /\ (exists out,
         parse_dir Sample.get_entry_type Sample.parse_name
           (Sample.mount Sample.image_A64) 10 2 EmptyString
         = Ok out
         /\ Sample.names out
            = ["."; ".."; "B.TXT"; "DEEP"; "SUB"; "A.TXT"]%string
         /\ Sample.parents out
            = ["/SUB"; "/SUB"; "/DEEP"; "/SUB"; EmptyString; EmptyString]%string).
Proof.
  split.
  - intros get_entry_type parse_name self fuel cluster parent_path out Hrun.
    pose proof (walk_walked _ _ _ _ _ _ _ Hrun) as Hwalked.
    pose proof (walk_scanned _ _ _ _ _ _ _ Hrun) as Hscanned.
    destruct (scanned_blocks _ _ _ _ _ _ _ _ Hscanned)
      as (blocks & data & tag & Hout & Hdata & Htag & Hterm & Hblocks).
    rewrite Z.add_0_l in Htag.
    exists data, (Z.of_nat (List.length blocks)).
    split; [exact Hdata|]. split; [lia|].
    split; [exists tag; auto|]. split.
    + intros n tag_n Hn record Htag_n. subst record.
      destruct (nth_error_split_Z blocks n Hn)
        as (b1 & [sub d] & b2 & Hsplit & Hlen & Hnth).
      destruct (Hblocks _ sub d Hnth) as (Hd & Hnum & Hp & Hc & Hrec & _).
      rewrite Z.add_0_l, Z2Nat.id in Hnum by lia.
      rewrite <- Hc in Hdata.
      destruct (decoded_record _ _ _ _ _ _ Hd Hdata)
        as (tag' & Htag' & Hnt & Hty & Hname & Hkeys).
      cbv zeta in *. rewrite Hnum in Htag', Hname, Hkeys.
      assert (tag' = tag_n) by congruence. subst tag'.
      split; [exact Hnt|].
      intros Hdir Hdot Hdotdot.
      assert (Hr : is_recursed d).
      { repeat split; congruence. }
      destruct (Hrec Hr) as (cc & Hcc & Hsub).
      exists cc, sub, (flat_map block_entries b1),
        (flat_map block_entries b2), d.
      split; [exact (recursed_keys_first_cluster _ _ _ _ _ Hkeys Hr Hcc)|].
      split; [now rewrite <- Hname|].
      split.
      { rewrite Hout, Hsplit, flat_map_app. cbn [flat_map].
        change (block_entries (sub, d)) with (sub ++ [d]).
        now rewrite <- !app_assoc. }
      auto.
    + intros e Hin. exact (walked_parent _ _ _ _ _ _ _ _ Hwalked e Hin).
  - eexists. split; [vm_compute; reflexivity|]. split; reflexivity.
Qed.

Lemma parse_dir_recurses_with_slash_name_witness :
  let fs := Sample.mount Sample.image_A64 in
  let out :=
    Sample.entries_of
      (parse_dir Sample.get_entry_type Sample.parse_name fs 10 3 "/SUB") in
  exists (data : bytes) (m : Z),
    _retrieve_data fs 10 3 true = Ok data
    /\ 0 <= m
    /\ (exists tag,
          index (slice data (32 * m) (32 * m + 32)) 11 = Ok tag
          /\ Sample.get_entry_type tag = hex_0)
    /\ (forall n tag,
          0 <= n < m ->
          let record := slice data (32 * n) (32 * n + 32) in
          index record 11 = Ok tag ->
          Sample.get_entry_type tag <> hex_0
          /\ (Sample.get_entry_type tag = "dir"%string ->
              Sample.parse_name record <> "."%string ->
              Sample.parse_name record <> ".."%string ->
              exists cc sub pre post d,
                _get_first_cluster fs record = Ok cc
                /\ parse_dir Sample.get_entry_type Sample.parse_name fs 10 cc
                     ("/" ++ Sample.parse_name record)%string
                   = Ok sub
                /\ out = pre ++ sub ++ d :: post
                /\ parent d = "/SUB"%string
                /\ dir_cluster d = 3
                /\ entry_num d = n
                /\ name d = Sample.parse_name record
                /\ content_cluster d = Some cc))
    /\ (forall e,
          In e out ->
          (parent e = "/SUB"%string /\ dir_cluster e = 3)
          \/ exists d,
               In d out /\ is_recursed d
               /\ content_cluster d = Some (dir_cluster e)
               /\ parent e = ("/" ++ name d)%string).
Proof.
  cbv zeta.
  apply (proj1 parse_dir_recurses_with_slash_name Sample.get_entry_type
           Sample.parse_name (Sample.mount Sample.image_A64) 10%nat 3
           "/SUB"%string).
  vm_compute. reflexivity.
Defined.
